(** * Prompt-Builder: composition and synchronisation engine

    A shallow embedding of the variable engine ([variableUtils]), the
    section drop / link-sync logic ([Section/index.tsx]), the tree-node
    drag source ([TreeNode]), the action bar's [copyPrompt] and the
    prompt-creation route ([api/prompts/route.ts]), followed by the
    properties established about them. *)

From Stdlib Require Import Ascii String.
From Stdlib Require Import List NArith Bool Arith Lia Permutation Floats.
Import ListNotations.

Set Implicit Arguments.
Set Warnings "-register-all".

(** ** JavaScript values *)

Module JS.

(** A JavaScript string is a sequence of UTF-16 code units. *)
Definition codeunit := N.
Definition jsstring := list codeunit.

(** An ASCII literal read as a JavaScript string. *)
Definition lit (s : string) : jsstring :=
  map N_of_ascii (list_ascii_of_string s).

Definition ceqb (a b : codeunit) : bool := N.eqb a b.

Fixpoint streqb (a b : jsstring) : bool :=
  match a, b with
  | [], [] => true
  | x :: a', y :: b' => ceqb x y && streqb a' b'
  | _, _ => false
  end.

(** [a === b] on strings, as a decision. *)
Definition str_eq_dec (a b : jsstring) : {a = b} + {a <> b} :=
  list_eq_dec N.eq_dec a b.

Definition lbrace : codeunit := 123%N.
Definition rbrace : codeunit := 125%N.
Definition dollar : codeunit := 36%N.
Definition amp : codeunit := 38%N.
Definition backtick : codeunit := 96%N.
Definition quote : codeunit := 39%N.
Definition newline : codeunit := 10%N.
Definition backslash : codeunit := 92%N.

(** WhiteSpace and LineTerminator code points of ECMAScript, the ones
    [String.prototype.trim] strips. *)
Definition isWhiteSpace (c : codeunit) : bool :=
  ((9 <=? c) && (c <=? 13) || (c =? 32) || (c =? 160) || (c =? 5760)
   || (8192 <=? c) && (c <=? 8202) || (c =? 8232) || (c =? 8233)
   || (c =? 8239) || (c =? 8287) || (c =? 12288) || (c =? 65279))%N.

Fixpoint trimStart (s : jsstring) : jsstring :=
  match s with
  | [] => []
  | c :: s' => if isWhiteSpace c then trimStart s' else s
  end.

Definition trimEnd (s : jsstring) : jsstring := rev (trimStart (rev s)).

(** [s.trim()] *)
Definition trim (s : jsstring) : jsstring := trimEnd (trimStart s).

(** ToBoolean on a string: only the empty string is falsy. *)
Definition truthyStr (s : jsstring) : bool :=
  match s with [] => false | _ => true end.

(** [s.startsWith(p)], also the test that a literal pattern matches at
    the head of [s]. *)
Fixpoint startsWith (p s : jsstring) : bool :=
  match p, s with
  | [], _ => true
  | x :: p', y :: s' => ceqb x y && startsWith p' s'
  | _ :: _, [] => false
  end.

(** [arr.includes(x)] on an array of strings. *)
Fixpoint includes (l : list jsstring) (x : jsstring) : bool :=
  match l with
  | [] => false
  | y :: l' => streqb y x || includes l' x
  end.

(** [arr.join(sep)] on an array of strings, as ECMAScript runs it: the
    separator is appended before every element but the first. *)
Definition joinStep (sep : jsstring) (acc : bool * jsstring) (x : jsstring)
  : bool * jsstring :=
  let (first, r) := acc in
  (false, if first then r ++ x else r ++ sep ++ x).

Definition join (sep : jsstring) (l : list jsstring) : jsstring :=
  snd (fold_left (joinStep sep) l (true, [])).

(** *** Values read back by [JSON.parse] *)

Inductive json : Type :=
| JNull
| JBool (b : bool)
| JNum (x : float)
| JStr (s : jsstring)
| JArr (items : list json)
| JObj (fields : list (jsstring * json)).

(** A JavaScript value that may be [undefined] ([None]). *)
Definition jsval := option json.

(** ToBoolean *)
Definition truthy (v : json) : bool :=
  match v with
  | JNull => false
  | JBool b => b
  | JNum x => negb (PrimFloat.eqb x 0%float) && PrimFloat.eqb x x
  | JStr s => truthyStr s
  | JArr _ | JObj _ => true
  end.

Definition truthyV (v : jsval) : bool :=
  match v with Some j => truthy j | None => false end.

Fixpoint assoc (A : Type) (k : jsstring) (l : list (jsstring * A)) : option A :=
  match l with
  | [] => None
  | (k', v) :: l' => if streqb k' k then Some v else assoc k l'
  end.

(** [v.k] on a value other than [null], for the property names this
    program reads (none of them is inherited from a prototype): an own
    property of an object, [undefined] on anything else. *)
Definition getProp (v : json) (k : jsstring) : jsval :=
  match v with
  | JObj fields => assoc k fields
  | _ => None
  end.

(** [v === "literal"] *)
Definition isString (v : jsval) (s : jsstring) : bool :=
  match v with Some (JStr s') => streqb s' s | _ => false end.

(** [Array.isArray(v)] *)
Definition isArray (v : jsval) : bool :=
  match v with Some (JArr _) => true | _ => false end.

(** [a || b] *)
Definition orElse (a : jsval) (b : json) : json :=
  match a with Some j => if truthy j then j else b | None => b end.

(** *** Abrupt completion

    A computation either returns normally or throws; [tryCatch] is a
    [try { ... } catch { ... }] whose handler only logs. *)
Inductive completion (A : Type) : Type :=
| Normal (a : A)
| Throw.
Arguments Throw {A}.

Definition bind (A B : Type) (m : completion A) (f : A -> completion B)
  : completion B :=
  match m with Normal a => f a | Throw => Throw end.

Definition tryCatch (A : Type) (body : completion A) (caught : A)
  : completion A :=
  Normal (match body with Normal a => a | Throw => caught end).

(** [v.k] where [v] may be [null]: reading a property of [null] throws
    a TypeError. *)
Definition readProp (v : json) (k : jsstring) : completion jsval :=
  match v with
  | JNull => Throw
  | _ => Normal (getProp v k)
  end.

(** [arr.forEach((x, idx) => ...)] collecting what each step yields. *)
Fixpoint mapi (A B : Type) (f : nat -> A -> B) (idx : nat) (l : list A)
  : list B :=
  match l with
  | [] => []
  | x :: l' => f idx x :: mapi f (S idx) l'
  end.

(** The first result of [f] along [l], as in a [for ... of] loop that
    returns on the first hit. *)
Fixpoint firstSome (A B : Type) (f : A -> option B) (l : list A) : option B :=
  match l with
  | [] => None
  | x :: l' => match f x with Some b => Some b | None => firstSome f l' end
  end.

End JS.
Import JS.

Notation "x <- m ;; k" := (bind m (fun x => k))
  (at level 61, m at next level, right associativity).

(** ** variableUtils.ts *)

Module VariableEngine.

(** *** The pattern [/\{\{([^}]+)\}\}/g] *)

(** The greedy run [[^}]+]: the longest prefix free of [}] and what
    follows it. *)
Fixpoint spanName (s : jsstring) : jsstring * jsstring :=
  match s with
  | [] => ([], [])
  | c :: s' =>
      if ceqb c rbrace then ([], s)
      else let (n, r) := spanName s' in (c :: n, r)
  end.

(** A match attempt anchored at the head of [s]: the capture group.
    The run is greedy; giving characters back cannot help, since the
    character after a shorter run is not [}]. *)
Definition matchHere (s : jsstring) : option jsstring :=
  match s with
  | a :: b :: s1 =>
      if ceqb a lbrace && ceqb b lbrace then
        match spanName s1 with
        | (c :: name, x :: y :: _) =>
            if ceqb x rbrace && ceqb y rbrace then Some (c :: name) else None
        | _ => None
        end
      else None
  | _ => None
  end.

(** [text.matchAll(regex)], the capture group of every match: the
    search resumes after the end of a match ([skip] code units are
    still inside the last match) and one code unit further after a
    failed attempt. *)
Fixpoint matchAllFrom (skip : nat) (s : jsstring) : list jsstring :=
  match s with
  | [] => []
  | _ :: s' =>
      match skip with
      | S k => matchAllFrom k s'
      | O =>
          match matchHere s with
          | Some name => name :: matchAllFrom (length name + 3) s'
          | None => matchAllFrom 0 s'
          end
      end
  end.

Definition matchAll (text : jsstring) : list jsstring := matchAllFrom 0 text.

(** The loop body of [extractVariables]: trim the capture, push it
    when it is non-empty and not yet in the array. *)
Definition pushVariable (variables : list jsstring) (capture : jsstring)
  : list jsstring :=
  let variableName := trim capture in
  if truthyStr variableName && negb (includes variables variableName)
  then variables ++ [variableName]
  else variables.

Definition extractVariables (text : jsstring) : list jsstring :=
  if negb (truthyStr text) then []
  else fold_left pushVariable (matchAll text) [].

(** [extractVariablesFromSections], over the sections' contents. *)
Definition pushUnique (all : list jsstring) (variable : jsstring)
  : list jsstring :=
  if negb (includes all variable) then all ++ [variable] else all.

Definition extractVariablesFromSections (contents : list jsstring)
  : list jsstring :=
  fold_left
    (fun all content => fold_left pushUnique (extractVariables content) all)
    contents [].

(** *** [replaceVariables] *)

(** Code units with a meaning in a regular expression source. A name
    free of them, spliced into [new RegExp(`\\{\\{${name}\\}\\}`, 'g')],
    gives the pattern that matches the literal text [{{name}}] and
    nothing else; the embedding covers those names. *)
Definition isRegexSyntax (c : codeunit) : bool :=
  existsb (ceqb c) (lit "\^$.*+?()[]{}|/").

Definition regexLiteral (name : jsstring) : bool :=
  forallb (fun c => negb (isRegexSyntax c)) name.

(** The text matched by the pattern built from [variableName]. *)
Definition placeholder (variableName : jsstring) : jsstring :=
  lit "{{" ++ variableName ++ lit "}}".

(** GetSubstitution for a pattern without capture groups: [$$] is a
    dollar sign, [$&] the matched text, [$`] the text before the match
    and [$'] the text after it; any other [$] stands for itself. *)
Fixpoint getSubstitution (matched before after replacement : jsstring)
  : jsstring :=
  match replacement with
  | [] => []
  | c :: r =>
      if ceqb c dollar then
        match r with
        | d :: r' =>
            if ceqb d dollar then dollar :: getSubstitution matched before after r'
            else if ceqb d amp then matched ++ getSubstitution matched before after r'
            else if ceqb d backtick then before ++ getSubstitution matched before after r'
            else if ceqb d quote then after ++ getSubstitution matched before after r'
            else c :: getSubstitution matched before after r
        | [] => [c]
        end
      else c :: getSubstitution matched before after r
  end.

(** [result.replace(regex, value)] with the global flag and a literal
    pattern [pat]: every match, found left to right without overlap in
    the input, is replaced by the expansion of [value]; [before] holds
    the input read so far, reversed. *)
Fixpoint replaceFrom (pat value : jsstring) (skip : nat)
         (before s : jsstring) : jsstring :=
  match s with
  | [] => []
  | c :: s' =>
      match skip with
      | S k => replaceFrom pat value k (c :: before) s'
      | O =>
          if startsWith pat s then
            getSubstitution pat (rev before) (skipn (length pat) s) value
              ++ replaceFrom pat value (length pat - 1) (c :: before) s'
          else c :: replaceFrom pat value 0 (c :: before) s'
      end
  end.

Definition replaceAll (pat value text : jsstring) : jsstring :=
  replaceFrom pat value 0 [] text.

(** [replaceVariables(text, variables)]; [variables] is the array
    [Object.entries] returns, in its order. On a string, [value || '']
    is the string itself. *)
Definition replaceVariables (text : jsstring)
           (variables : list (jsstring * jsstring)) : jsstring :=
  fold_left
    (fun result entry => replaceAll (placeholder (fst entry)) (snd entry) result)
    variables text.

End VariableEngine.
Import VariableEngine.

(** ** The data model ([@/types]) *)

Module Model.

(** A library component. [componentType] is the enumeration's tag, a
    string at run time. *)
Record ComponentType : Type := {
  c_id : jsstring;
  c_name : jsstring;
  componentType : jsstring;
  c_content : jsstring
}.

Inductive TreeNode : Type :=
| FolderNode (id name : jsstring) (children : list TreeNode) (expanded : bool)
| ComponentNode (c : ComponentType).

Record Section : Type := {
  s_id : jsstring;
  s_type : jsstring;
  s_name : jsstring;
  s_content : jsstring;
  s_open : bool;
  linkedComponentId : option jsstring;
  originalContent : option jsstring;
  dirty : bool
}.

(** The fields of a prompt this development reads. [variables] is the
    [Record<string, string>] in the order of [Object.entries]. *)
Record Prompt : Type := {
  p_id : jsstring;
  p_name : jsstring;
  sections : list Section;
  variables : list (jsstring * jsstring)
}.

(** The prompt store behind [usePromptContext]: the prompts and the
    counter the next section id comes from. *)
Record Store : Type := {
  prompts : list Prompt;
  nextId : nat
}.

(** [JSON.stringify] of a component node, read back. *)
Definition componentToJson (c : ComponentType) : json :=
  JObj [ (lit "id", JStr (c_id c));
         (lit "name", JStr (c_name c));
         (lit "type", JStr (lit "component"));
         (lit "componentType", JStr (componentType c));
         (lit "content", JStr (c_content c)) ].

(** What [dataTransfer.getData("application/json")] holds, by what
    [JSON.parse] makes of it: a text it rejects with a SyntaxError (the
    empty string among them), or a text it reads as [v]. *)
Inductive Payload : Type :=
| Unparseable (raw : jsstring)
| Parsed (v : json).

Definition emptyPayload : Payload := Unparseable [].

Definition JSON_parse (data : Payload) : completion json :=
  match data with
  | Unparseable _ => Throw
  | Parsed v => Normal v
  end.

(** The object literal [handleDrop] hands to [updateSection]: five
    keys, each holding whatever the payload had there. *)
Record SectionUpdates : Type := {
  u_content : jsval;
  u_type : jsval;
  u_name : jsval;
  u_linkedComponentId : jsval;
  u_originalContent : jsval
}.

(** A call into the prompt context. *)
Inductive ContextCall : Type :=
| UpdateSection (promptId sectionId : jsstring) (updates : SectionUpdates)
| AddSectionFromComponent (promptId : jsstring) (component : json) (atIndex : nat)
| UpdateSectionFromLinkedComponent (promptId sectionId : jsstring)
                                   (component : ComponentType).

End Model.
Import Model.

(** ** The prompt context *)

Module PromptContext.

(** [Partial<Section>] as [updateSection] merges it; [None] is an
    absent key. *)
Record SectionPatch : Type := {
  pt_content : option jsstring;
  pt_type : option jsstring;
  pt_name : option jsstring;
  pt_linkedComponentId : option jsstring;
  pt_originalContent : option jsstring
}.

Definition asString (v : jsval) : option jsstring :=
  match v with Some (JStr s) => Some s | _ => None end.

(** The updates of a drop as a typed patch; a value that is not a
    string has no place in a [Section]. *)
Definition decodeUpdates (u : SectionUpdates) : option SectionPatch :=
  match asString (u_content u), asString (u_type u), asString (u_name u),
        asString (u_linkedComponentId u), asString (u_originalContent u) with
  | Some c, Some t, Some n, Some l, Some o =>
      Some {| pt_content := Some c; pt_type := Some t; pt_name := Some n;
              pt_linkedComponentId := Some l; pt_originalContent := Some o |}
  | _, _, _, _, _ => None
  end.

Definition decodeComponent (v : json) : option ComponentType :=
  match asString (getProp v (lit "id")), asString (getProp v (lit "name")),
        asString (getProp v (lit "componentType")),
        asString (getProp v (lit "content")) with
  | Some i, Some n, Some t, Some c =>
      Some {| c_id := i; c_name := n; componentType := t; c_content := c |}
  | _, _, _, _ => None
  end.

Definition orKeep (A : Type) (new : option A) (old : A) : A :=
  match new with Some a => a | None => old end.

Definition orKeepOpt (A : Type) (new old : option A) : option A :=
  match new with Some a => Some a | None => old end.

Definition optStrEqb (a : option jsstring) (b : jsstring) : bool :=
  match a with Some a' => streqb a' b | None => false end.

(** Modelled from the spec: the merge of [updateSection] is absent from
    the sources. It merges the partial fields into the section and, when
    the content is written while the section is linked, sets [dirty] to
    whether the new content differs from [originalContent]. *)
Definition mergeSection (s : Section) (u : SectionPatch) : Section :=
  let link := orKeepOpt (pt_linkedComponentId u) (linkedComponentId s) in
  let orig := orKeepOpt (pt_originalContent u) (originalContent s) in
  let content := orKeep (pt_content u) (s_content s) in
  {| s_id := s_id s;
     s_type := orKeep (pt_type u) (s_type s);
     s_name := orKeep (pt_name u) (s_name s);
     s_content := content;
     s_open := s_open s;
     linkedComponentId := link;
     originalContent := orig;
     dirty := match pt_content u, link with
              | Some _, Some _ => negb (optStrEqb orig content)
              | _, _ => dirty s
              end |}.

(** Modelled from the spec: the refresh of
    [updateSectionFromLinkedComponent] is absent from the sources. It
    pushes the component's content, type and name into the section,
    advances [originalContent] to the component's content and clears
    [dirty]. *)
Definition syncSection (s : Section) (c : ComponentType) : Section :=
  {| s_id := s_id s;
     s_type := componentType c;
     s_name := c_name c;
     s_content := c_content c;
     s_open := s_open s;
     linkedComponentId := linkedComponentId s;
     originalContent := Some (c_content c);
     dirty := false |}.

Section Operations.

(** The id generator and the [open] flag of a section made from a
    component are not fixed by the spec. *)
Variable generateId : nat -> jsstring.
Variable newSectionOpen : bool.

(** Modelled from the spec: the section [addSectionFromComponent]
    makes is absent from the sources; it is bound to the component. *)
Definition sectionFromComponent (n : nat) (c : ComponentType) : Section :=
  {| s_id := generateId n;
     s_type := componentType c;
     s_name := c_name c;
     s_content := c_content c;
     s_open := newSectionOpen;
     linkedComponentId := Some (c_id c);
     originalContent := Some (c_content c);
     dirty := false |}.

Definition withSections (p : Prompt) (l : list Section) : Prompt :=
  {| p_id := p_id p; p_name := p_name p; sections := l;
     variables := variables p |}.

Definition onSections (promptId : jsstring)
           (f : list Section -> list Section) (st : Store) : Store :=
  {| prompts :=
       map (fun p =>
              if streqb (p_id p) promptId
              then withSections p (f (sections p))
              else p)
           (prompts st);
     nextId := nextId st |}.

Definition onSection (sectionId : jsstring) (f : Section -> Section)
           (l : list Section) : list Section :=
  map (fun s => if streqb (s_id s) sectionId then f s else s) l.

(** Modelled from the spec: [updateSection] of the prompt context is
    absent from the sources. It merges the partial fields into the
    section of that id in the prompt of that id. *)
Definition updateSection (promptId sectionId : jsstring)
           (u : SectionPatch) (st : Store) : Store :=
  onSections promptId (onSection sectionId (fun s => mergeSection s u)) st.

(** Modelled from the spec: [updateSectionFromLinkedComponent] of the
    prompt context is absent from the sources. It refreshes the section
    of that id from the component. *)
Definition updateSectionFromLinkedComponent (promptId sectionId : jsstring)
           (c : ComponentType) (st : Store) : Store :=
  onSections promptId (onSection sectionId (fun s => syncSection s c)) st.

(** Modelled from the spec: [addSectionFromComponent] of the prompt
    context is absent from the sources. It inserts a section made from
    the component at [atIndex] of the prompt's sections (at the end when
    [atIndex] is past it). *)
Definition addSectionFromComponent (promptId : jsstring)
           (c : ComponentType) (atIndex : nat) (st : Store) : Store :=
  let st' :=
    onSections promptId
      (fun l => firstn atIndex l
                  ++ sectionFromComponent (nextId st) c :: skipn atIndex l)
      st in
  {| prompts := prompts st'; nextId := S (nextId st) |}.

(** One context call applied to the store; [None] when an argument
    does not have the type the operation declares. *)
Definition runCall (call : ContextCall) (st : Store) : option Store :=
  match call with
  | UpdateSection promptId sectionId updates =>
      match decodeUpdates updates with
      | Some u => Some (updateSection promptId sectionId u st)
      | None => None
      end
  | AddSectionFromComponent promptId component atIndex =>
      match decodeComponent component with
      | Some c => Some (addSectionFromComponent promptId c atIndex st)
      | None => None
      end
  | UpdateSectionFromLinkedComponent promptId sectionId c =>
      Some (updateSectionFromLinkedComponent promptId sectionId c st)
  end.

Fixpoint runCalls (calls : list ContextCall) (st : Store) : option Store :=
  match calls with
  | [] => Some st
  | call :: calls' =>
      match runCall call st with
      | Some st' => runCalls calls' st'
      | None => None
      end
  end.

End Operations.

End PromptContext.
Import PromptContext.

(** ** components/PromptEditor/Section/index.tsx *)

Module SectionView.

(** [findComponentById]: the first component with that id, depth first.
    A folder is never a hit, whatever its id; it is searched. *)
Fixpoint findComponentInNode (id : jsstring) (node : TreeNode)
  : option ComponentType :=
  match node with
  | ComponentNode c => if streqb (c_id c) id then Some c else None
  | FolderNode _ _ children _ => firstSome (findComponentInNode id) children
  end.

Definition findComponentById (treeData : list TreeNode) (id : jsstring)
  : option ComponentType :=
  firstSome (findComponentInNode id) treeData.

(** [linkedComponent.content !== section.originalContent] *)
Definition differsFromSnapshot (content : jsstring) (snapshot : option jsstring)
  : bool :=
  negb (optStrEqb snapshot content).

(** The component the effect looks at: the link must be set (a non-empty
    id) and found in the tree. *)
Definition resolveLink (treeData : list TreeNode) (section : Section)
  : option ComponentType :=
  match linkedComponentId section with
  | Some id => if truthyStr id then findComponentById treeData id else None
  | None => None
  end.

(** The condition under which the effect refreshes the section. *)
Definition drifted (linkedComponent : ComponentType) (section : Section) : bool :=
  differsFromSnapshot (c_content linkedComponent) (originalContent section)
  || negb (streqb (componentType linkedComponent) (s_type section))
  || negb (streqb (c_name linkedComponent) (s_name section)).

(** The link-sync [useEffect]: the calls it makes. *)
Definition linkSyncEffect (treeData : list TreeNode) (promptId : jsstring)
           (section : Section) : list ContextCall :=
  match resolveLink treeData section with
  | Some linkedComponent =>
      if drifted linkedComponent section
      then [UpdateSectionFromLinkedComponent promptId (s_id section) linkedComponent]
      else []
  | None => []
  end.

(** The updates built from a dropped component object [c]; reading a
    property of [null] throws. [fallback] is the default of the [type]
    key, when there is one. *)
Definition updatesFrom (c : json) (fallback : option json)
  : completion SectionUpdates :=
  content <- readProp c (lit "content") ;;
  ctype <- readProp c (lit "componentType") ;;
  name <- readProp c (lit "name") ;;
  id <- readProp c (lit "id") ;;
  Normal {| u_content := content;
            u_type := match fallback with
                      | Some d => Some (orElse ctype d)
                      | None => ctype
                      end;
            u_name := name;
            u_linkedComponentId := id;
            u_originalContent := content |}.

(** The body of the [try] block of [handleDrop]: the context calls it
    makes, in order. *)
Definition handleDropBody (promptId : jsstring) (section : Section)
           (index : nat) (data : Payload) : completion (list ContextCall) :=
  dragData <- JSON_parse data ;;
  if negb (truthy dragData) then Normal []
  else if isString (getProp dragData (lit "dragType")) (lit "folder")
          && truthyV (getProp dragData (lit "components"))
          && isArray (getProp dragData (lit "components"))
  then
    match getProp dragData (lit "components") with
    | Some (JArr (firstComponent :: rest)) =>
        updates <- updatesFrom firstComponent (Some (JStr (lit "instruction"))) ;;
        Normal (UpdateSection promptId (s_id section) updates
                  :: mapi (fun idx component =>
                             AddSectionFromComponent promptId component
                                                     (index + 1 + idx))
                          0 rest)
    | _ => Normal []
    end
  else if isString (getProp dragData (lit "type")) (lit "component")
          && truthyV (getProp dragData (lit "componentType"))
  then
    updates <- updatesFrom dragData None ;;
    Normal [UpdateSection promptId (s_id section) updates]
  else Normal [].

(** [handleDrop]: whatever the body throws is caught and logged. *)
Definition handleDrop (promptId : jsstring) (section : Section)
           (index : nat) (data : Payload) : completion (list ContextCall) :=
  tryCatch (handleDropBody promptId section index data) [].

(** A drop on the section's content area: the store after the calls
    of [handleDrop]. *)
Definition dropOnSection (generateId : nat -> jsstring) (newSectionOpen : bool)
           (promptId : jsstring) (section : Section) (index : nat)
           (data : Payload) (st : Store) : completion (option Store) :=
  calls <- handleDrop promptId section index data ;;
  Normal (runCalls generateId newSectionOpen calls st).

(** The payload [handleSectionDragStart] writes for a section drag. *)
Definition existingSectionPayload (promptId : jsstring) (section : Section)
           (sectionData : json) (originalIndex : float) : json :=
  JObj [ (lit "dragType", JStr (lit "existingSection"));
         (lit "sectionId", JStr (s_id section));
         (lit "promptId", JStr promptId);
         (lit "sectionData", sectionData);
         (lit "originalIndex", JNum originalIndex) ].

(** The payloads the two branches of [handleDrop] act on. *)
Definition folderPayloadWithArray (data : Payload) : bool :=
  match data with
  | Parsed v => isString (getProp v (lit "dragType")) (lit "folder")
                && isArray (getProp v (lit "components"))
  | Unparseable _ => false
  end.

Definition componentPayloadWithType (data : Payload) : bool :=
  match data with
  | Parsed v => isString (getProp v (lit "type")) (lit "component")
                && match getProp v (lit "componentType") with
                   | Some _ => true
                   | None => false
                   end
  | Unparseable _ => false
  end.

End SectionView.
Import SectionView.

(** ** The tree node ([TreeNode] component) *)

Module TreeNodeView.

(** Modelled from the spec: [getAllComponentsFromFolder] of [treeUtils]
    is absent from the sources. It returns every component reachable
    under the folder, depth first, children in order. *)
Fixpoint getAllComponentsFromFolder (node : TreeNode) : list ComponentType :=
  match node with
  | ComponentNode c => [c]
  | FolderNode _ _ children _ => flat_map getAllComponentsFromFolder children
  end.

(** The number of components anywhere beneath a node. *)
Fixpoint componentCount (node : TreeNode) : nat :=
  match node with
  | ComponentNode _ => 1
  | FolderNode _ _ children _ =>
      fold_right (fun child n => componentCount child + n) 0 children
  end.

Definition nodeName (node : TreeNode) : jsstring :=
  match node with
  | FolderNode _ name _ _ => name
  | ComponentNode c => c_name c
  end.

(** What a drag-start handler can touch: the transfer slot
    ["application/json"] (the value serialised into it), the event's
    flags and the [is-dragging-something] class of the body. *)
Record DragStart : Type := {
  transferData : option json;
  effectAllowed : option jsstring;
  defaultPrevented : bool;
  propagationStopped : bool;
  isDraggingSomething : bool
}.

Definition freshDrag : DragStart :=
  {| transferData := None; effectAllowed := None; defaultPrevented := false;
     propagationStopped := false; isDraggingSomething := false |}.

Definition folderPayload (folderName : jsstring) (components : list ComponentType)
  : json :=
  JObj [ (lit "dragType", JStr (lit "folder"));
         (lit "folderName", JStr folderName);
         (lit "components", JArr (map componentToJson components)) ].

(** [handleDragStart] of a tree node. The drag preview is rendering and
    is left out. *)
Definition handleDragStart (node : TreeNode) (e : DragStart) : DragStart :=
  match node with
  | ComponentNode component =>
      {| transferData := Some (componentToJson component);
         effectAllowed := Some (lit "move");
         defaultPrevented := defaultPrevented e;
         propagationStopped := true;
         isDraggingSomething := true |}
  | FolderNode _ _ _ _ =>
      let allComponents := getAllComponentsFromFolder node in
      match allComponents with
      | [] =>
          {| transferData := transferData e;
             effectAllowed := effectAllowed e;
             defaultPrevented := true;
             propagationStopped := propagationStopped e;
             isDraggingSomething := isDraggingSomething e |}
      | _ :: _ =>
          {| transferData := Some (folderPayload (nodeName node) allComponents);
             effectAllowed := Some (lit "move");
             defaultPrevented := defaultPrevented e;
             propagationStopped := true;
             isDraggingSomething := true |}
      end
  end.

(** The platform's rule: a drag whose [dragstart] was cancelled does not
    start, and no drop follows it. *)
Definition dragStarted (e : DragStart) : bool := negb (defaultPrevented e).

Definition payloadOf (e : DragStart) : Payload :=
  match transferData e with
  | Some v => Parsed v
  | None => emptyPayload
  end.

(** A whole gesture: the node is dragged and, when the drag started,
    dropped on a section; the store after it. *)
Definition dragAndDrop (generateId : nat -> jsstring) (newSectionOpen : bool)
           (node : TreeNode) (promptId : jsstring) (target : Section)
           (index : nat) (st : Store) : option Store :=
  let e := handleDragStart node freshDrag in
  if dragStarted e then
    match dropOnSection generateId newSectionOpen promptId target index
                        (payloadOf e) st with
    | Normal st' => st'
    | Throw => None
    end
  else Some st.

End TreeNodeView.
Import TreeNodeView.

(** ** components/PromptEditor/ActionBar.tsx and hooks/useClipboard.ts *)

Module ActionBar.

(** The compiled text of [copyPrompt]: the contents whose trimmed text is
    not empty, joined by two line feeds. *)
Definition compilePromptText (p : Prompt) : jsstring :=
  join [newline; newline]
       (filter (fun content => truthyStr (trim content))
               (map s_content (sections p))).

(** Modelled from the spec: [getPromptVariables] of the prompt context is
    absent from the sources; it is the prompt's own [variables] map. *)
Definition getPromptVariables (prompts : list Prompt) (promptId : jsstring)
  : list (jsstring * jsstring) :=
  match find (fun p => streqb (p_id p) promptId) prompts with
  | Some p => variables p
  | None => []
  end.

(** The separator [copyPrompt] writes after the system prompt: the
    string literal ["\\n\\n"], that is a backslash, an [n], a backslash
    and an [n]. *)
Definition systemPromptSeparator : jsstring :=
  [backslash; 110%N; backslash; 110%N].

(** [copyToClipboard(text)]: an empty text is refused, any other text is
    written to the clipboard ([Some]: what the sink received). *)
Definition copyToClipboard (text : jsstring) : option jsstring :=
  if negb (truthyStr text) then None else Some text.

(** [copyPrompt]: what reaches the clipboard, if anything. *)
Definition copyPrompt (prompts : list Prompt) (activePromptId : option jsstring)
           (systemPrompt : jsstring) (markdownEnabled : bool)
  : option jsstring :=
  match activePromptId with
  | None => None
  | Some id =>
      if negb (truthyStr id) then None
      else
        match find (fun p => streqb (p_id p) id) prompts with
        | None => None
        | Some activePrompt =>
            let promptText := compilePromptText activePrompt in
            let variables := getPromptVariables prompts id in
            let promptText :=
              if (0 <? length variables)%nat
              then replaceVariables promptText variables
              else promptText in
            let promptText :=
              if markdownEnabled && truthyStr systemPrompt
              then systemPrompt ++ systemPromptSeparator ++ promptText
              else promptText in
            copyToClipboard promptText
        end
  end.

End ActionBar.
Import ActionBar.

(** ** app/api/prompts/route.ts *)

Module Api.

(** A row of the [prompts] table. [sections] and [variables] are stored
    as the text [JSON.stringify] gives and read back with [JSON.parse];
    the row keeps the value that text denotes. *)
Record Row : Type := {
  r_id : jsstring;
  r_name : json;
  r_sections : json;
  r_variables : json;
  r_num : json;
  r_created_at : jsstring;
  r_updated_at : jsstring
}.

Record Response : Type := {
  status : nat;
  body : json
}.

Definition errorResponse (message : string) (code : nat) : Response :=
  {| status := code; body := JObj [ (lit "error", JStr (lit message)) ] |}.

Definition rowToJson (r : Row) : json :=
  JObj [ (lit "id", JStr (r_id r));
         (lit "name", r_name r);
         (lit "sections", r_sections r);
         (lit "variables", r_variables r);
         (lit "num", r_num r);
         (lit "created_at", JStr (r_created_at r));
         (lit "updated_at", JStr (r_updated_at r)) ].

(** [const { name, sections, variables, num } = body]: destructuring
    [null] throws a TypeError. *)
Definition destructure (body : json)
  : completion (jsval * jsval * jsval * jsval) :=
  name <- readProp body (lit "name") ;;
  sections <- readProp body (lit "sections") ;;
  variables <- readProp body (lit "variables") ;;
  num <- readProp body (lit "num") ;;
  Normal (name, sections, variables, num).

Section Route.

(** The SQLite table behind [db] is an external collaborator:
    [insertRow] is the prepared INSERT ([None] when [run] throws),
    [getRow] the SELECT by id. *)
Variable DB : Type.
Variable insertRow : Row -> DB -> option DB.
Variable getRow : jsstring -> DB -> option Row.

Inductive Outcome : Type :=
| Responded (r : Response) (db : DB)
| SyntaxError
| OtherError.

Definition valueOrNull (v : jsval) : json :=
  match v with Some j => j | None => JNull end.

(** The [try] block of [POST]. [requestJson] is the result of
    [request.json()], [None] when the body is not JSON; [newPromptId] and
    [currentTimestamp] are what [uuidv4()] and [new Date().toISOString()]
    return. *)
Definition postBody (requestJson : option json) (newPromptId : jsstring)
           (currentTimestamp : jsstring) (db : DB) : Outcome :=
  match requestJson with
  | None => SyntaxError
  | Some body =>
      match destructure body with
      | Throw => OtherError
      | Normal (name, sections, variables, num) =>
          if negb (truthyV name)
          then Responded (errorResponse "Prompt name is required" 400) db
          else
            let row :=
              {| r_id := newPromptId;
                 r_name := valueOrNull name;
                 r_sections := orElse sections (JArr []);
                 r_variables := orElse variables (JObj []);
                 r_num := valueOrNull num;
                 r_created_at := currentTimestamp;
                 r_updated_at := currentTimestamp |} in
            match insertRow row db with
            | None => OtherError
            | Some db' =>
                match getRow newPromptId db' with
                | Some newPrompt =>
                    Responded {| status := 201; body := rowToJson newPrompt |} db'
                | None =>
                    Responded
                      (errorResponse
                         "Failed to create prompt or retrieve it after creation"
                         500)
                      db'
                end
            end
      end
  end.

(** [POST]: the response and the table after it. An error thrown after
    the insert leaves the inserted row; the model has no such path. *)
Definition POST (requestJson : option json) (newPromptId : jsstring)
           (currentTimestamp : jsstring) (db : DB) : Response * DB :=
  match postBody requestJson newPromptId currentTimestamp db with
  | Responded r db' => (r, db')
  | SyntaxError => (errorResponse "Invalid JSON format in request body" 400, db)
  | OtherError => (errorResponse "Failed to create prompt" 500, db)
  end.

End Route.

(** A table kept as a list of rows, for running the route. *)
Definition listInsert (r : Row) (db : list Row) : option (list Row) :=
  Some (db ++ [r]).

Definition listGet (id : jsstring) (db : list Row) : option Row :=
  find (fun r => streqb (r_id r) id) db.

End Api.
Import Api.

(** ** Reference definitions

    What the spec's sentences say, stated on their own, to compare the
    code with. *)

Module Reference.

(** An occurrence of the pattern "two open braces, one or more
    characters other than a close brace, two close braces" at the head
    of a text, with the name it captures and the text after it. *)
Inductive PatternAt : jsstring -> jsstring -> jsstring -> Prop :=
| PatternAt_intro (name rest : jsstring) :
    name <> [] ->
    Forall (fun c => c <> rbrace) name ->
    PatternAt (lbrace :: lbrace :: name ++ rbrace :: rbrace :: rest) name rest.

(** The captures of a left-to-right scan: an occurrence at the current
    position is taken and the scan resumes after it; where there is
    none, the scan moves on by one code unit. *)
Inductive Captures : jsstring -> list jsstring -> Prop :=
| Captures_end : Captures [] []
| Captures_skip (c : codeunit) (s : jsstring) (l : list jsstring) :
    (forall name rest, ~ PatternAt (c :: s) name rest) ->
    Captures s l ->
    Captures (c :: s) l
| Captures_take (s name rest : jsstring) (l : list jsstring) :
    PatternAt s name rest ->
    Captures rest l ->
    Captures s (name :: l).

(** Duplicates removed, the first occurrence of each name kept in
    place. *)
Fixpoint dedupFirst (l : list jsstring) : list jsstring :=
  match l with
  | [] => []
  | x :: l' => x :: filter (fun y => negb (streqb y x)) (dedupFirst l')
  end.

(** The names of a text as the spec words them. *)
Definition namesOf (captures : list jsstring) : list jsstring :=
  dedupFirst (filter truthyStr (map trim captures)).

(** Pieces joined by a separator: one separator between two neighbours,
    none before the first piece or after the last. *)
Fixpoint intercalate (sep : jsstring) (l : list jsstring) : jsstring :=
  match l with
  | [] => []
  | [x] => x
  | x :: l' => x ++ sep ++ intercalate sep l'
  end.

(** [text.split(pat)] for a non-empty literal [pat]: the pieces of the
    text between the occurrences of [pat], found left to right without
    overlap. [piece] is the current piece, reversed. *)
Fixpoint splitFrom (pat : jsstring) (skip : nat) (piece s : jsstring)
  : list jsstring :=
  match s with
  | [] => [rev piece]
  | c :: s' =>
      match skip with
      | S k => splitFrom pat k piece s'
      | O =>
          if startsWith pat s
          then rev piece :: splitFrom pat (length pat - 1) [] s'
          else splitFrom pat 0 (c :: piece) s'
      end
  end.

Definition splitOn (pat text : jsstring) : list jsstring :=
  splitFrom pat 0 [] text.

(** A text cut into literal pieces and placeholders. *)
Inductive Token : Type :=
| Lit (s : jsstring)
| Var (name : jsstring).

Definition renderToken (t : Token) : jsstring :=
  match t with
  | Lit s => s
  | Var name => placeholder name
  end.

Definition render (ts : list Token) : jsstring := concat (map renderToken ts).

Definition braceFree (s : jsstring) : bool :=
  forallb (fun c => negb (ceqb c lbrace) && negb (ceqb c rbrace)) s.

Definition openBraceFree (s : jsstring) : bool :=
  forallb (fun c => negb (ceqb c lbrace)) s.

Definition dollarFree (s : jsstring) : bool :=
  forallb (fun c => negb (ceqb c dollar)) s.

(** Every open brace of the text belongs to a placeholder with a
    brace-free name. *)
Definition wellFormedToken (t : Token) : bool :=
  match t with
  | Lit s => openBraceFree s
  | Var name => braceFree name
  end.

(** Simultaneous substitution: each placeholder whose name has an entry
    becomes that entry's value, in one pass over the tokens. *)
Definition substituteToken (variables : list (jsstring * jsstring)) (t : Token)
  : jsstring :=
  match t with
  | Lit s => s
  | Var name =>
      match assoc name variables with
      | Some value => value
      | None => placeholder name
      end
  end.

Definition substitute (variables : list (jsstring * jsstring)) (ts : list Token)
  : jsstring :=
  concat (map (substituteToken variables) ts).

(** Replacement of the occurrences of a literal pattern by a value
    inserted as it is. *)
Fixpoint replaceLit (pat value : jsstring) (skip : nat) (s : jsstring)
  : jsstring :=
  match s with
  | [] => []
  | c :: s' =>
      match skip with
      | S k => replaceLit pat value k s'
      | O =>
          if startsWith pat s
          then value ++ replaceLit pat value (length pat - 1) s'
          else c :: replaceLit pat value 0 s'
      end
  end.

(** One entry applied to a token: the placeholder of that name becomes
    the value, as a literal piece. *)
Definition bindToken (name value : jsstring) (t : Token) : Token :=
  match t with
  | Var m => if streqb m name then Lit value else t
  | Lit _ => t
  end.

Definition distinctNames (variables : list (jsstring * jsstring)) : bool :=
  (fix go (l : list jsstring) : bool :=
     match l with
     | [] => true
     | x :: l' => negb (includes l' x) && go l'
     end) (map fst variables).

(** The names and values for which sequential replacement is shown to
    be a simultaneous substitution: a name without regular-expression
    syntax, a value without open brace and without dollar sign. *)
Definition plainEntry (entry : jsstring * jsstring) : bool :=
  regexLiteral (fst entry) && openBraceFree (snd entry) && dollarFree (snd entry).

End Reference.
Import Reference.

(** ** HighlightedTextarea: the highlight layer *)

Module Highlighting.

(** [text.split(/(\{\{[^}]+\}\})/g)]: the pieces of the text between the
    matches and, after each piece but the last, the match itself (the
    pattern's only group captures the whole match). [piece] is the
    current piece, reversed. *)
Fixpoint splitPartsFrom (skip : nat) (piece s : jsstring) : list jsstring :=
  match s with
  | [] => [rev piece]
  | c :: s' =>
      match skip with
      | S k => splitPartsFrom k piece s'
      | O =>
          match matchHere s with
          | Some name =>
              rev piece :: placeholder name
                :: splitPartsFrom (length name + 3) [] s'
          | None => splitPartsFrom 0 (c :: piece) s'
          end
      end
  end.

Definition splitParts (text : jsstring) : list jsstring :=
  splitPartsFrom 0 [] text.

(** The search of [RegExp.prototype.exec] from a position on: the index
    just after the first match, [pos] being the index of the head of
    [s]. *)
Fixpoint searchEnd (pos : nat) (s : jsstring) : option nat :=
  match s with
  | [] => None
  | _ :: s' =>
      match matchHere s with
      | Some name => Some (pos + length name + 4)
      | None => searchEnd (S pos) s'
      end
  end.

(** [regex.test(part)] on the global regex: the search starts at
    [lastIndex]; a hit leaves [lastIndex] after the match, a miss (or a
    [lastIndex] past the end) resets it to 0. The result and the new
    [lastIndex]. *)
Definition regexTest (lastIndex : nat) (part : jsstring) : bool * nat :=
  if (length part <? lastIndex)%nat then (false, 0)
  else
    match searchEnd lastIndex (skipn lastIndex part) with
    | Some e => (true, e)
    | None => (false, 0)
    end.

(** [parts.map(part => regex.test(part) ? <highlighted> : <plain>)]: each
    part with whether it is rendered as a highlighted variable; the one
    regex object is used for every test. *)
Fixpoint highlightParts (lastIndex : nat) (parts : list jsstring)
  : list (bool * jsstring) :=
  match parts with
  | [] => []
  | part :: rest =>
      let (hit, lastIndex') := regexTest lastIndex part in
      (hit, part) :: highlightParts lastIndex' rest
  end.

Definition highlightVariables (text : jsstring) : list (bool * jsstring) :=
  if negb (truthyStr text) then []
  else highlightParts 0 (splitParts text).

(** *** [createHighlightedHTML] of the contenteditable variant *)

Definition doubleQuote : codeunit := 34%N.

Definition spanOpen : jsstring :=
  lit "<span class=" ++ [doubleQuote] ++ lit "highlighted-variable"
      ++ [doubleQuote] ++ lit ">".

Definition spanClose : jsstring := lit "</span>".

Definition lineBreak : jsstring := lit "<br>".




End Highlighting.
Import Highlighting.

(** ** The tree node as a drop target *)

Module TreeNodeDrop.


(** [v === s] for a string [s] *)
Definition strictEqualsString (v : json) (s : jsstring) : bool :=
  match v with JStr s' => streqb s' s | _ => false end.

Section Parser.

(** [JSON.parse] on the transferred text. *)
Variable parse : jsstring -> completion json.

(** The [try]/[catch] of the handler: [parsedData.id || parsedData], or
    the text itself when parsing, or reading [id] of [null], throws. *)
Definition draggedNodeIdOf (draggedData : jsstring) : json :=
  match (parsedData <- parse draggedData ;;
         id <- readProp parsedData (lit "id") ;;
         Normal (orElse id parsedData)) with
  | Normal v => v
  | Throw => JStr draggedData
  end.

(** [handleDrop] of a tree node: the detail of the [node-dropped] event
    it dispatches, if any. [jsonData] and [textData] are what
    [getData] returns for ["application/json"] and ["text/plain"]. *)
Definition handleDrop (node : TreeNode) (jsonData textData : jsstring)
  : option (json * jsstring) :=
  match node with
  | ComponentNode _ => None
  | FolderNode id _ _ _ =>
      let draggedData := if truthyStr jsonData then jsonData else textData in
      let draggedNodeId := draggedNodeIdOf draggedData in
      if negb (truthy draggedNodeId) || strictEqualsString draggedNodeId id
      then None
      else Some (draggedNodeId, id)
  end.

End Parser.

End TreeNodeDrop.

(** ** components/VariablesPane *)

Module VariablesPane.

(** The property names every plain object inherits from
    [Object.prototype]. *)
Definition objectPrototypeKeys : list jsstring :=
  map lit [ "constructor"; "__defineGetter__"; "__defineSetter__";
            "hasOwnProperty"; "__lookupGetter__"; "__lookupSetter__";
            "isPrototypeOf"; "propertyIsEnumerable"; "toString"; "valueOf";
            "__proto__"; "toLocaleString" ]%string.

(** A [Record<string, string>] as its own properties. *)
Definition hasOwn (name : jsstring) (values : list (jsstring * jsstring)) : bool :=
  match assoc name values with Some _ => true | None => false end.

(** [name in values] *)
Definition inObject (name : jsstring) (values : list (jsstring * jsstring))
  : bool :=
  hasOwn name values || includes objectPrototypeKeys name.

(** [values[name] || ''] for a name that is not inherited. *)
Definition ownOrEmpty (name : jsstring) (values : list (jsstring * jsstring))
  : jsstring :=
  match assoc name values with Some v => v | None => [] end.

(** The first loop of the state updater: a name that is not [in] the
    copy gets the stored value, or the empty string. *)
Definition addMissing (currentValues updatedValues : list (jsstring * jsstring))
           (name : jsstring) : list (jsstring * jsstring) :=
  if negb (inObject name updatedValues)
  then updatedValues ++ [(name, ownOrEmpty name currentValues)]
  else updatedValues.

(** The updater the effect passes to [setVariableValues]: the next
    state from the previous one. *)
Definition syncVariableValues (names : list jsstring)
           (currentValues prevValues : list (jsstring * jsstring))
  : list (jsstring * jsstring) :=
  filter (fun entry => includes names (fst entry))
         (fold_left (addMissing currentValues) names prevValues).

(** [{ ...prev, [variableName]: value }] *)
Fixpoint setOwn (name value : jsstring) (values : list (jsstring * jsstring))
  : list (jsstring * jsstring) :=
  match values with
  | [] => [(name, value)]
  | (k, v) :: rest =>
      if streqb k name then (k, value) :: rest
      else (k, v) :: setOwn name value rest
  end.

(** [handleVariableChange]: the next values and the [hasChanges] flag. *)
Definition handleVariableChange (variableName value : jsstring)
           (prev : list (jsstring * jsstring))
  : list (jsstring * jsstring) * bool :=
  (setOwn variableName value prev, true).

End VariablesPane.
Import VariablesPane.

(** ** app/api/prompts/route.ts: the listing *)

Module ApiList.

(** A row as [stmt.all()] returns it: [sections] is the stored text or
    NULL, [variables] the stored text ([COALESCE] turns NULL into
    ['{}']). *)
Record RawRow : Type := {
  raw_id : jsstring;
  raw_name : json;
  raw_sections : option jsstring;
  raw_variables : jsstring;
  raw_num : json;
  raw_created_at : jsstring;
  raw_updated_at : jsstring
}.

Section Listing.

Variable parse : jsstring -> completion json.

(** [text ? JSON.parse(text) : fallback] *)
Definition parseOr (text : option jsstring) (fallback : json) : completion json :=
  match text with
  | Some t => if truthyStr t then parse t else Normal fallback
  | None => Normal fallback
  end.

Definition decodeRow (r : RawRow) : completion json :=
  sections <- parseOr (raw_sections r) (JArr []) ;;
  variables <- parseOr (Some (raw_variables r)) (JObj []) ;;
  Normal (JObj [ (lit "id", JStr (raw_id r));
                 (lit "name", raw_name r);
                 (lit "sections", sections);
                 (lit "variables", variables);
                 (lit "num", raw_num r);
                 (lit "created_at", JStr (raw_created_at r));
                 (lit "updated_at", JStr (raw_updated_at r)) ]).

(** [promptsRaw.map(...)]: the first row that throws ends the map. *)
Fixpoint decodeRows (rows : list RawRow) : completion (list json) :=
  match rows with
  | [] => Normal []
  | r :: rest =>
      p <- decodeRow r ;;
      ps <- decodeRows rest ;;
      Normal (p :: ps)
  end.

(** [GET]: [rows] is the result of [stmt.all()], [None] when the query
    throws. *)
Definition GET (rows : option (list RawRow)) : Response :=
  match rows with
  | None => errorResponse "Failed to fetch prompts" 500
  | Some promptsRaw =>
      match decodeRows promptsRaw with
      | Normal prompts => {| status := 200; body := JArr prompts |}
      | Throw => errorResponse "Failed to fetch prompts" 500
      end
  end.

End Listing.

End ApiList.
Import ApiList.

(** ** Reference definitions for the further properties *)

Module Reference2.

(** Whether the pattern occurs somewhere in the text. *)
Fixpoint occurs (pat s : jsstring) : bool :=
  match s with
  | [] => false
  | _ :: s' => startsWith pat s || occurs pat s'
  end.

(** The names of the placeholders of a tokenised text, in order. *)
Fixpoint varNames (ts : list Token) : list jsstring :=
  match ts with
  | [] => []
  | Lit _ :: ts' => varNames ts'
  | Var name :: ts' => name :: varNames ts'
  end.

(** A text with no white space at either end. *)
Definition startsClean (s : jsstring) : bool :=
  match s with
  | [] => true
  | c :: _ => negb (isWhiteSpace c)
  end.

Definition isTrimmed (s : jsstring) : bool :=
  startsClean s && startsClean (rev s).

(** A component somewhere in a node, at any depth. *)
Inductive ComponentIn (c : ComponentType) : TreeNode -> Prop :=
| ComponentIn_here : ComponentIn c (ComponentNode c)
| ComponentIn_child (id name : jsstring) (children : list TreeNode)
                    (expanded : bool) (child : TreeNode) :
    In child children ->
    ComponentIn c child ->
    ComponentIn c (FolderNode id name children expanded).

Definition ComponentInTree (c : ComponentType) (treeData : list TreeNode) : Prop :=
  exists node, In node treeData /\ ComponentIn c node.

(** The shape of generated markup: text without angle brackets, and the
    three tags. *)
Inductive HtmlToken : Type :=
| HText (s : jsstring)
| HSpanOpen
| HSpanClose
| HBreak.

Definition renderHtmlToken (t : HtmlToken) : jsstring :=
  match t with
  | HText s => s
  | HSpanOpen => spanOpen
  | HSpanClose => spanClose
  | HBreak => lineBreak
  end.

Definition renderHtml (ts : list HtmlToken) : jsstring :=
  concat (map renderHtmlToken ts).



(** Alternating parts: plain, highlighted, plain, ... *)
Fixpoint alternate (highlighted : bool) (parts : list jsstring)
  : list (bool * jsstring) :=
  match parts with
  | [] => []
  | part :: rest => (highlighted, part) :: alternate (negb highlighted) rest
  end.

(** Pieces and matches interleaved: [p0; m1; p1; ...; mn; pn]. *)
Fixpoint interleave (first : jsstring) (following : list (jsstring * jsstring))
  : list jsstring :=
  match following with
  | [] => [first]
  | (m, p) :: rest => first :: m :: interleave p rest
  end.

End Reference2.
Import Reference2.

(** ** Sample data *)

Module Samples.

(** A section that only carries a content. *)
Definition plainSection (content : string) : Section :=
  {| s_id := []; s_type := lit "instruction"; s_name := [];
     s_content := lit content; s_open := true; linkedComponentId := None;
     originalContent := None; dirty := false |}.

Definition promptOf (l : list Section) : Prompt :=
  {| p_id := lit "p"; p_name := lit "prompt"; sections := l; variables := [] |}.

Definition sectionWithId (id content : string) : Section :=
  {| s_id := lit id; s_type := lit "instruction"; s_name := lit id;
     s_content := lit content; s_open := true; linkedComponentId := None;
     originalContent := None; dirty := false |}.

Definition component (id content : string) : ComponentType :=
  {| c_id := lit id; c_name := lit id; componentType := lit "context";
     c_content := lit content |}.

(** A section linked to the component [C], in sync with content ["X"]. *)
Definition linkedSection : Section :=
  {| s_id := lit "s1"; s_type := lit "context"; s_name := lit "C";
     s_content := lit "X"; s_open := true;
     linkedComponentId := Some (lit "C");
     originalContent := Some (lit "X"); dirty := false |}.

(** The library after [C]'s content was changed to ["Y"]. *)
Definition libraryAfterEdit : list TreeNode :=
  [FolderNode (lit "f") (lit "folder")
              [ComponentNode (component "other" "o");
               ComponentNode {| c_id := lit "C"; c_name := lit "C";
                                componentType := lit "context";
                                c_content := lit "Y" |}]
              true].

Definition threeSections : Store :=
  {| prompts := [ {| p_id := lit "p"; p_name := lit "prompt";
                     sections := [sectionWithId "s0" "zero";
                                  sectionWithId "s1" "one";
                                  sectionWithId "s2" "two"];
                     variables := [] |} ];
     nextId := 7 |}.

Definition sampleId (n : nat) : jsstring := lit "new" ++ [N.of_nat n].

End Samples.
Import Samples.

(** * Properties *)

Unset Implicit Arguments.

(** ** Worked examples *)

Example replace_name :
  replaceVariables (lit "Hi {{name}}") [(lit "name", lit "Bo")] = lit "Hi Bo".
Proof. reflexivity. Qed.

Example replace_missing_key :
  replaceVariables (lit "Hi {{name}}") [(lit "other", lit "Bo")]
  = lit "Hi {{name}}".
Proof. reflexivity. Qed.

Example replace_empty_value :
  replaceVariables (lit "Hi {{name}}!") [(lit "name", [])] = lit "Hi !".
Proof. reflexivity. Qed.

Example replace_untrimmed_placeholder :
  extractVariables (lit "{{ a }}") = [lit "a"]
  /\ replaceVariables (lit "{{ a }}") [(lit "a", lit "1")] = lit "{{ a }}".
Proof. split; reflexivity. Qed.

Example replace_dollar_patterns :
  replaceVariables (lit "x{{a}}y") [(lit "a", lit "[$&|$`|$'|$$|$1]")]
  = lit "x[{{a}}|x|y|$|$1]y".
Proof. reflexivity. Qed.

Example extract_malformed :
  extractVariables (lit "{{{a}} {{a}b}} {{}} {{ }}x{{c") = [lit "{a"].
Proof. reflexivity. Qed.

Example extract_across_sections :
  extractVariablesFromSections [lit "{{a}} {{b}}"; lit "{{b}} {{c}}"; lit "{{a}}"]
  = [lit "a"; lit "b"; lit "c"].
Proof. reflexivity. Qed.

Example find_nested_component :
  findComponentById libraryAfterEdit (lit "C")
  = Some {| c_id := lit "C"; c_name := lit "C"; componentType := lit "context";
            c_content := lit "Y" |}
  /\ findComponentById libraryAfterEdit (lit "f") = None.
Proof. split; reflexivity. Qed.

Example drop_component_payload :
  handleDrop (lit "p") (sectionWithId "s1" "one") 1
             (Parsed (componentToJson (component "c1" "first")))
  = Normal [UpdateSection (lit "p") (lit "s1")
              {| u_content := Some (JStr (lit "first"));
                 u_type := Some (JStr (lit "context"));
                 u_name := Some (JStr (lit "c1"));
                 u_linkedComponentId := Some (JStr (lit "c1"));
                 u_originalContent := Some (JStr (lit "first")) |}].
Proof. reflexivity. Qed.

Example drop_folder_with_null_component :
  handleDrop (lit "p") (sectionWithId "s1" "one") 1
             (Parsed (JObj [ (lit "dragType", JStr (lit "folder"));
                             (lit "components", JArr [JNull]) ]))
  = Normal [].
Proof. reflexivity. Qed.

Example drag_component :
  transferData (handleDragStart (ComponentNode (component "c1" "first")) freshDrag)
  = Some (componentToJson (component "c1" "first")).
Proof. reflexivity. Qed.

Example create_with_defaults :
  POST listInsert listGet (Some (JObj [ (lit "name", JStr (lit "Draft")) ]))
       (lit "id-1") (lit "2024-01-01T00:00:00.000Z") []
  = ({| status := 201;
        body := JObj [ (lit "id", JStr (lit "id-1"));
                       (lit "name", JStr (lit "Draft"));
                       (lit "sections", JArr []);
                       (lit "variables", JObj []);
                       (lit "num", JNull);
                       (lit "created_at", JStr (lit "2024-01-01T00:00:00.000Z"));
                       (lit "updated_at", JStr (lit "2024-01-01T00:00:00.000Z")) ] |},
     [ {| r_id := lit "id-1"; r_name := JStr (lit "Draft");
          r_sections := JArr []; r_variables := JObj []; r_num := JNull;
          r_created_at := lit "2024-01-01T00:00:00.000Z";
          r_updated_at := lit "2024-01-01T00:00:00.000Z" |} ]).
Proof. reflexivity. Qed.

Example create_with_empty_name :
  status (fst (POST listInsert listGet
                    (Some (JObj [ (lit "name", JStr []) ]))
                    (lit "id-1") (lit "now") []))
  = 400.
Proof. reflexivity. Qed.

(** ** Strings *)

Section StringFacts.

Lemma ceqb_eq (a b : codeunit) : ceqb a b = true <-> a = b.
Proof. apply N.eqb_eq. Qed.

Lemma ceqb_neq (a b : codeunit) : ceqb a b = false <-> a <> b.
Proof. apply N.eqb_neq. Qed.

Lemma ceqb_refl (a : codeunit) : ceqb a a = true.
Proof. apply N.eqb_refl. Qed.

Lemma streqb_eq (a b : jsstring) : streqb a b = true <-> a = b.
Proof.
  revert b. induction a as [|x a IH]; intros [|y b]; simpl; split;
    try congruence; try reflexivity.
  - intros H. apply andb_true_iff in H as [H1 H2].
    apply ceqb_eq in H1. apply IH in H2. congruence.
  - intros [= -> ->]. rewrite ceqb_refl. simpl. now apply IH.
Qed.

Lemma streqb_refl (a : jsstring) : streqb a a = true.
Proof. now apply streqb_eq. Qed.

Lemma streqb_neq (a b : jsstring) : streqb a b = false <-> a <> b.
Proof.
  split.
  - intros H E. apply streqb_eq in E. congruence.
  - intros H. destruct (streqb a b) eqn:E; [|reflexivity].
    apply streqb_eq in E. contradiction.
Qed.

Lemma streqb_sym (a b : jsstring) : streqb a b = streqb b a.
Proof.
  destruct (streqb a b) eqn:E.
  - apply streqb_eq in E. subst. now rewrite streqb_refl.
  - apply streqb_neq in E. symmetry. apply streqb_neq. congruence.
Qed.

Lemma includes_In (l : list jsstring) (x : jsstring) :
  includes l x = true <-> In x l.
Proof.
  induction l as [|y l IH]; simpl.
  - split; [discriminate | tauto].
  - rewrite orb_true_iff, IH, streqb_eq. tauto.
Qed.

Lemma includes_app (l l' : list jsstring) (x : jsstring) :
  includes (l ++ l') x = includes l x || includes l' x.
Proof.
  induction l as [|y l IH]; simpl; [reflexivity|].
  now rewrite IH, orb_assoc.
Qed.

Lemma startsWith_app (p r : jsstring) : startsWith p (p ++ r) = true.
Proof. induction p as [|x p IH]; simpl; [reflexivity|]. now rewrite ceqb_refl. Qed.

Lemma startsWith_true (p s : jsstring) :
  startsWith p s = true -> exists r, s = p ++ r.
Proof.
  revert s. induction p as [|x p IH]; intros s H; simpl in *.
  - now exists s.
  - destruct s as [|y s]; [discriminate|].
    apply andb_true_iff in H as [H1 H2]. apply ceqb_eq in H1. subst y.
    destruct (IH _ H2) as [r ->]. now exists r.
Qed.

End StringFacts.

(** ** The scan of [extractVariables] *)

Section Scan.

Lemma spanName_spec (s : jsstring) :
  s = fst (spanName s) ++ snd (spanName s)
  /\ Forall (fun c => c <> rbrace) (fst (spanName s))
  /\ (snd (spanName s) = [] \/ exists r, snd (spanName s) = rbrace :: r).
Proof.
  induction s as [|c s IH]; simpl.
  - repeat split; auto.
  - destruct (ceqb c rbrace) eqn:E; simpl.
    + apply ceqb_eq in E. subst c. repeat split; eauto.
    + apply ceqb_neq in E. destruct (spanName s) as [n r]. simpl in *.
      destruct IH as (H1 & H2 & H3). repeat split; auto. congruence.
Qed.

Lemma spanName_run (name r : jsstring) :
  Forall (fun c => c <> rbrace) name ->
  spanName (name ++ rbrace :: r) = (name, rbrace :: r).
Proof.
  induction 1 as [|c name Hc _ IH]; simpl.
  - reflexivity.
  - apply ceqb_neq in Hc. now rewrite Hc, IH.
Qed.

Lemma matchHere_complete (s name rest : jsstring) :
  PatternAt s name rest -> matchHere s = Some name.
Proof.
  intros [n r Hne Hrun]. unfold matchHere.
  rewrite !ceqb_refl. simpl. rewrite (spanName_run _ _ Hrun).
  destruct n as [|c n]; [congruence|].
  now rewrite !ceqb_refl.
Qed.

Lemma matchHere_sound (s name : jsstring) :
  matchHere s = Some name ->
  exists rest, PatternAt s name rest.
Proof.
  unfold matchHere. destruct s as [|a [|b s1]]; try discriminate.
  destruct (ceqb a lbrace && ceqb b lbrace) eqn:E; [|discriminate].
  apply andb_true_iff in E as [Ea Eb]. apply ceqb_eq in Ea, Eb. subst a b.
  destruct (spanName_spec s1) as (H1 & H2 & _).
  destruct (spanName s1) as [[|c n] [|x [|y r]]]; try discriminate.
  destruct (ceqb x rbrace && ceqb y rbrace) eqn:E; [|discriminate].
  apply andb_true_iff in E as [Ex Ey]. apply ceqb_eq in Ex, Ey. subst x y.
  intros [= <-]. exists r. simpl in H1, H2. rewrite H1.
  apply (PatternAt_intro (name := c :: n)); [discriminate | exact H2].
Qed.

Lemma PatternAt_functional (s name rest name' rest' : jsstring) :
  PatternAt s name rest -> PatternAt s name' rest' ->
  name = name' /\ rest = rest'.
Proof.
  intros H H'. pose proof (matchHere_complete _ _ _ H) as E.
  pose proof (matchHere_complete _ _ _ H') as E'.
  rewrite E in E'. injection E' as <-. split; [reflexivity|].
  destruct H as [n r _ _]. inversion H'; subst.
  match goal with
  | Hs : _ ++ _ = _ ++ _ |- _ => apply app_inv_head in Hs; congruence
  end.
Qed.

Lemma matchAllFrom_skip (x rest : jsstring) :
  matchAllFrom (length x) (x ++ rest) = matchAllFrom 0 rest.
Proof.
  induction x as [|c x IH]; simpl; [|exact IH].
  destruct rest; reflexivity.
Qed.

Lemma matchAllFrom_here (c : codeunit) (s : jsstring) :
  matchAllFrom 0 (c :: s)
  = match matchHere (c :: s) with
    | Some name => name :: matchAllFrom (length name + 3) s
    | None => matchAllFrom 0 s
    end.
Proof. reflexivity. Qed.

Lemma matchAll_take (s name rest : jsstring) :
  PatternAt s name rest -> matchAll s = name :: matchAll rest.
Proof.
  intros H. pose proof (matchHere_complete _ _ _ H) as E.
  destruct H as [name rest Hne Hrun]. unfold matchAll.
  rewrite matchAllFrom_here, E. f_equal.
  assert (lbrace :: name ++ rbrace :: rbrace :: rest
          = (lbrace :: name ++ [rbrace; rbrace]) ++ rest) as ->
      by (simpl; rewrite <- app_assoc; reflexivity).
  assert (length name + 3 = length (lbrace :: name ++ [rbrace; rbrace])) as ->
      by (simpl; rewrite length_app; simpl; lia).
  apply matchAllFrom_skip.
Qed.

Lemma matchAll_skip (c : codeunit) (s : jsstring) :
  matchHere (c :: s) = None -> matchAll (c :: s) = matchAll s.
Proof. intros E. unfold matchAll. now rewrite matchAllFrom_here, E. Qed.

Lemma PatternAt_shorter (s name rest : jsstring) :
  PatternAt s name rest -> length rest < length s.
Proof.
  intros [n r _ _]. simpl. rewrite length_app. simpl. lia.
Qed.

(** The scanner finds the captures of the reference scan. *)
Lemma matchAll_Captures (text : jsstring) : Captures text (matchAll text).
Proof.
  remember (length text) as n eqn:Hn.
  revert text Hn. induction n as [n IH] using lt_wf_ind. intros text Hn.
  destruct text as [|c s].
  - constructor.
  - destruct (matchHere (c :: s)) as [name|] eqn:E.
    + destruct (matchHere_sound _ _ E) as [rest H].
      rewrite (matchAll_take _ _ _ H). apply Captures_take with (rest := rest); [exact H|].
      apply (IH (length rest)); [|reflexivity].
      subst n. now apply PatternAt_shorter in H.
    + rewrite (matchAll_skip _ _ E). apply Captures_skip.
      * intros name rest H. apply matchHere_complete in H. congruence.
      * apply (IH (length s)); [subst n; simpl; lia | reflexivity].
Qed.

(** The reference scan has one outcome. *)
Lemma Captures_matchAll (text : jsstring) (l : list jsstring) :
  Captures text l -> l = matchAll text.
Proof.
  induction 1 as [|c s l Hno _ IH|s name rest l Hp _ IH].
  - reflexivity.
  - rewrite matchAll_skip; [exact IH|].
    destruct (matchHere (c :: s)) as [name|] eqn:E; [|reflexivity].
    destruct (matchHere_sound _ _ E) as [rest H]. now apply Hno in H.
  - rewrite (matchAll_take _ _ _ Hp). now f_equal.
Qed.

End Scan.

(** ** Removing duplicates *)

Section Dedup.

Lemma filter_filter_comm (A : Type) (p q : A -> bool) (l : list A) :
  filter p (filter q l) = filter q (filter p l).
Proof.
  induction l as [|x l IH]; simpl; [reflexivity|].
  destruct (p x) eqn:Ep, (q x) eqn:Eq; simpl; rewrite ?Ep, ?Eq, IH; reflexivity.
Qed.

Lemma filter_both (A : Type) (p q : A -> bool) (l : list A) :
  filter p (filter q l) = filter (fun y => q y && p y) l.
Proof.
  induction l as [|x l IH]; simpl; [reflexivity|].
  destruct (q x); simpl; [destruct (p x)|]; now rewrite IH.
Qed.

Lemma filter_absorb (p : jsstring -> bool) (x : jsstring) (l : list jsstring) :
  p x = false ->
  filter p (filter (fun y => negb (streqb y x)) l) = filter p l.
Proof.
  intros Hx. induction l as [|y l IH]; simpl; [reflexivity|].
  destruct (streqb y x) eqn:E; simpl.
  - apply streqb_eq in E. subst y. now rewrite Hx.
  - now rewrite IH.
Qed.

Lemma dedupFirst_filter (p : jsstring -> bool) (l : list jsstring) :
  dedupFirst (filter p l) = filter p (dedupFirst l).
Proof.
  induction l as [|x l IH]; simpl; [reflexivity|].
  destruct (p x) eqn:E; simpl.
  - rewrite IH. f_equal. apply filter_filter_comm.
  - rewrite IH. symmetry. now apply filter_absorb.
Qed.

Lemma pushUnique_fold (l acc : list jsstring) :
  fold_left pushUnique l acc
  = acc ++ dedupFirst (filter (fun y => negb (includes acc y)) l).
Proof.
  revert acc. induction l as [|x l IH]; intros acc; simpl.
  - now rewrite app_nil_r.
  - unfold pushUnique at 2. destruct (includes acc x) eqn:E; simpl.
    + apply IH.
    + rewrite IH, <- app_assoc. simpl. do 2 f_equal.
      rewrite <- dedupFirst_filter. f_equal.
      rewrite filter_both. apply filter_ext. intros y.
      rewrite includes_app. simpl.
      now rewrite orb_false_r, negb_orb, (streqb_sym x y).
Qed.

Lemma pushVariable_fold (caps acc : list jsstring) :
  fold_left pushVariable caps acc
  = fold_left pushUnique (filter truthyStr (map trim caps)) acc.
Proof.
  revert acc. induction caps as [|c caps IH]; intros acc; simpl; [reflexivity|].
  unfold pushVariable at 2. destruct (truthyStr (trim c)) eqn:E; simpl.
  - unfold pushUnique at 2. apply IH.
  - apply IH.
Qed.

Lemma dedupFirst_In (x : jsstring) (l : list jsstring) :
  In x (dedupFirst l) <-> In x l.
Proof.
  induction l as [|y l IH]; simpl; [tauto|].
  rewrite filter_In, IH, negb_true_iff, streqb_neq.
  destruct (str_eq_dec y x); intuition congruence.
Qed.

Lemma NoDup_filter (A : Type) (p : A -> bool) (l : list A) :
  NoDup l -> NoDup (filter p l).
Proof.
  induction 1 as [|x l Hx _ IH]; simpl; [constructor|].
  destruct (p x); [|exact IH]. constructor; [|exact IH].
  rewrite filter_In. tauto.
Qed.

Lemma dedupFirst_NoDup (l : list jsstring) : NoDup (dedupFirst l).
Proof.
  induction l as [|x l IH]; simpl; constructor.
  - rewrite filter_In, streqb_refl. simpl. intros [_ H]. discriminate.
  - now apply NoDup_filter.
Qed.

Lemma extractVariables_namesOf (text : jsstring) :
  extractVariables text = namesOf (matchAll text).
Proof.
  unfold extractVariables, namesOf. destruct text as [|c s]; [reflexivity|].
  cbn [truthyStr negb].
  rewrite pushVariable_fold, pushUnique_fold. simpl.
  f_equal. clear. induction (filter truthyStr (map trim (matchAll (c :: s))));
    simpl; congruence.
Qed.

End Dedup.

(** C5. For every text, [extractVariables] returns the names captured by
    the pattern "two open braces, one or more characters other than a
    close brace, two close braces" (the captures of the reference scan,
    which the text determines), each trimmed, the empty ones dropped,
    duplicates removed with the first occurrence kept in place; the two
    examples of the spec hold. *)
Theorem C5_extractVariables_names :
  (forall text : jsstring,
      exists captures,
        Captures text captures
        /\ (forall l, Captures text l -> l = captures)
        /\ extractVariables text
           = dedupFirst (filter truthyStr (map trim captures))
        /\ NoDup (extractVariables text)
        /\ (forall name, In name (extractVariables text)
                         <-> name <> [] /\ exists c, In c captures /\ trim c = name))
  /\ extractVariables (lit "{{a}} {{b}} {{a}}") = [lit "a"; lit "b"]
  /\ extractVariables (lit "{{ a }}") = [lit "a"].
Proof.
  split; [|split; reflexivity].
  intros text. exists (matchAll text).
  split; [apply matchAll_Captures|].
  split; [intros l H; now apply Captures_matchAll|].
  rewrite extractVariables_namesOf. unfold namesOf.
  split; [reflexivity|]. split; [apply dedupFirst_NoDup|].
  intros name. rewrite dedupFirst_In, filter_In, in_map_iff.
  split.
  - intros [[c [Hc Hin]] Ht]. split; [destruct name; [discriminate|discriminate]|eauto].
  - intros [Hne [c [Hin Hc]]]. split; [eauto|]. destruct name; [congruence|reflexivity].
Qed.

(** ** [join] *)

Section Join.

Variable sep : jsstring.

Lemma join_fold_rest (l : list jsstring) (r : jsstring) :
  snd (fold_left (joinStep sep) l (false, r)) = r ++ concat (map (fun x => sep ++ x) l).
Proof.
  revert r. induction l as [|x l IH]; intros r; simpl.
  - now rewrite app_nil_r.
  - rewrite IH. now rewrite <- !app_assoc.
Qed.

Lemma intercalate_cons (x : jsstring) (l : list jsstring) :
  intercalate sep (x :: l) = x ++ concat (map (fun y => sep ++ y) l).
Proof.
  revert x. induction l as [|y l IH]; intros x.
  - simpl. now rewrite app_nil_r.
  - change (intercalate sep (x :: y :: l)) with (x ++ sep ++ intercalate sep (y :: l)).
    rewrite IH. simpl. now rewrite <- !app_assoc.
Qed.

Lemma join_intercalate (l : list jsstring) : join sep l = intercalate sep l.
Proof.
  destruct l as [|x l]; [reflexivity|].
  rewrite intercalate_cons. unfold join. simpl. apply (join_fold_rest l x).
Qed.

Lemma join_cons (x : jsstring) (l : list jsstring) :
  join sep (x :: l) = x ++ concat (map (fun y => sep ++ y) l).
Proof. now rewrite join_intercalate, intercalate_cons. Qed.

Lemma intercalate_length (l : list jsstring) :
  length (intercalate sep l)
  = list_sum (map (@length codeunit) l) + length sep * (length l - 1).
Proof.
  destruct l as [|x l]; [simpl; lia|]. rewrite intercalate_cons, length_app.
  simpl. rewrite Nat.sub_0_r, <- Nat.add_assoc. f_equal.
  induction l as [|y l IH]; simpl; [lia|].
  rewrite !length_app, IH. lia.
Qed.

End Join.

(** C7. For every prompt the compiled text is made of exactly the
    section contents whose trimmed text is not empty, in section order,
    with two line feeds between neighbours and nowhere else: its length
    is the kept contents' plus two per gap. An empty section, a section
    of two spaces and the section ["Body"] compile to ["Body"]. *)
Theorem C7_compiled_text_joined :
  (forall p : Prompt,
      let kept := filter (fun content => truthyStr (trim content))
                         (map s_content (sections p)) in
      compilePromptText p = intercalate [newline; newline] kept
      /\ length (compilePromptText p)
         = list_sum (map (@length codeunit) kept) + 2 * (length kept - 1))
  /\ compilePromptText
       (promptOf [plainSection EmptyString; plainSection "  "; plainSection "Body"])
     = lit "Body".
Proof.
  split; [|reflexivity].
  intros p kept. unfold compilePromptText. fold kept.
  rewrite join_intercalate. split; [reflexivity|].
  apply (intercalate_length [newline; newline] kept).
Qed.

(** ** [replace] with a literal pattern *)

Section Replace.

Lemma getSubstitution_plain (matched before after value : jsstring) :
  dollarFree value = true ->
  getSubstitution matched before after value = value.
Proof.
  induction value as [|c v IH]; simpl; [reflexivity|].
  intros H. apply andb_true_iff in H as [Hc Hv].
  apply negb_true_iff in Hc. rewrite Hc. f_equal. now apply IH.
Qed.

Lemma replaceFrom_literal (pat value : jsstring) (skip : nat)
      (before s : jsstring) :
  dollarFree value = true ->
  replaceFrom pat value skip before s = replaceLit pat value skip s.
Proof.
  intros Hv. revert skip before.
  induction s as [|c s IH]; intros skip before; simpl; [reflexivity|].
  destruct skip as [|k]; [|apply IH].
  destruct (startsWith pat (c :: s)).
  - now rewrite getSubstitution_plain, IH.
  - now rewrite IH.
Qed.

Lemma replaceAll_literal (pat value text : jsstring) :
  dollarFree value = true ->
  replaceAll pat value text = replaceLit pat value 0 text.
Proof. intros H. unfold replaceAll. now apply replaceFrom_literal. Qed.

Lemma replaceLit_skip (pat value x rest : jsstring) :
  replaceLit pat value (length x) (x ++ rest) = replaceLit pat value 0 rest.
Proof.
  induction x as [|c x IH]; simpl; [|exact IH].
  destruct rest; reflexivity.
Qed.

Lemma replaceLit_here (pat value : jsstring) (c : codeunit) (s : jsstring) :
  replaceLit pat value 0 (c :: s)
  = if startsWith pat (c :: s)
    then value ++ replaceLit pat value (length pat - 1) s
    else c :: replaceLit pat value 0 s.
Proof. reflexivity. Qed.

Lemma replaceLit_match (c : codeunit) (p value rest : jsstring) :
  replaceLit (c :: p) value 0 ((c :: p) ++ rest)
  = value ++ replaceLit (c :: p) value 0 rest.
Proof.
  change ((c :: p) ++ rest) with (c :: (p ++ rest)).
  rewrite replaceLit_here.
  change (c :: p ++ rest) with ((c :: p) ++ rest). rewrite startsWith_app.
  f_equal. replace (length (c :: p) - 1) with (length p) by (simpl; lia).
  apply replaceLit_skip.
Qed.

Lemma replaceLit_run (p value s rest : jsstring) :
  openBraceFree s = true ->
  replaceLit (lbrace :: p) value 0 (s ++ rest)
  = s ++ replaceLit (lbrace :: p) value 0 rest.
Proof.
  induction s as [|c s IH]; simpl app; [reflexivity|].
  intros H. simpl in H. apply andb_true_iff in H as [Hc Hs].
  apply negb_true_iff in Hc. rewrite replaceLit_here.
  cbn [startsWith]. unfold ceqb in *. rewrite N.eqb_sym, Hc. simpl.
  f_equal. now apply IH.
Qed.

Lemma splitFrom_nonempty (pat s : jsstring) :
  forall (skip : nat) (piece : jsstring), splitFrom pat skip piece s <> [].
Proof.
  induction s as [|c s IH]; intros skip piece; simpl; [discriminate|].
  destruct skip as [|k]; [|apply IH].
  destruct (startsWith pat (c :: s)); [discriminate | apply IH].
Qed.

(** Splitting on the pattern and joining with the value is the
    replacement by a literal value. *)
Lemma splitFrom_join (pat value : jsstring) (s : jsstring) :
  forall (skip : nat) (piece : jsstring),
    join value (splitFrom pat skip piece s)
    = rev piece ++ replaceLit pat value skip s.
Proof.
  induction s as [|c s IH]; intros skip piece.
  - simpl. rewrite join_cons. reflexivity.
  - cbn [splitFrom replaceLit]. destruct skip as [|k]; [|apply IH].
    destruct (startsWith pat (c :: s)).
    + rewrite join_cons. f_equal.
      specialize (IH (length pat - 1) []). simpl rev in IH. simpl app in IH.
      rewrite <- IH.
      destruct (splitFrom pat (length pat - 1) [] s) as [|x l] eqn:E.
      * now apply splitFrom_nonempty in E.
      * rewrite join_cons. simpl. now rewrite <- app_assoc.
    + rewrite IH. simpl. now rewrite <- app_assoc.
Qed.

Lemma replaceAll_split_join (pat value text : jsstring) :
  dollarFree value = true ->
  replaceAll pat value text = join value (splitOn pat text).
Proof.
  intros H. rewrite (replaceAll_literal _ _ _ H). unfold splitOn.
  now rewrite splitFrom_join.
Qed.

(** Replacing a pattern by itself changes nothing: what [replaceLit]
    takes for an occurrence is the pattern. *)
Lemma replaceLit_self (c : codeunit) (p s : jsstring) :
  forall skip, skip <= length s ->
  replaceLit (c :: p) (c :: p) skip s = skipn skip s.
Proof.
  remember (length s) as n eqn:Hn. revert s Hn.
  induction n as [n IH] using lt_wf_ind. intros s Hn skip Hskip.
  destruct s as [|d s]; [now destruct skip|].
  destruct skip as [|k].
  - rewrite replaceLit_here. destruct (startsWith (c :: p) (d :: s)) eqn:E.
    + destruct (startsWith_true _ _ E) as [r Hr]. injection Hr as -> ->.
      replace (length (c :: p) - 1) with (length p) by (simpl; lia).
      rewrite replaceLit_skip.
      rewrite (IH (length r)); [reflexivity| |reflexivity|lia].
      subst n. simpl. rewrite length_app. lia.
    + simpl skipn. f_equal.
      apply (IH (length s)); [subst n; simpl; lia | reflexivity | lia].
  - simpl. apply (IH (length s)); [subst n; simpl; lia | reflexivity |].
    simpl in Hskip. subst n. simpl in Hskip. lia.
Qed.

(** The pieces of a split, put back around the pattern, are the text. *)
Lemma splitOn_join (c : codeunit) (p text : jsstring) :
  join (c :: p) (splitOn (c :: p) text) = text.
Proof.
  unfold splitOn. rewrite splitFrom_join. simpl rev. simpl app.
  apply (replaceLit_self c p text 0). lia.
Qed.

Lemma replaceVariables_app (text : jsstring)
      (before after : list (jsstring * jsstring)) :
  replaceVariables text (before ++ after)
  = replaceVariables (replaceVariables text before) after.
Proof. unfold replaceVariables. apply fold_left_app. Qed.

End Replace.

(** C1, as amended. [replaceVariables] is not one pass over the text but
    one pass per entry, in the mapping's order, each over the text the
    entries before it produced. At the step of an entry (its name free
    of regular-expression syntax, its value free of [$]) that text is
    cut into the pieces around the occurrences of [{{name}}] and the
    value is put between the pieces as it is: that entry and the entries
    before it never read what it inserted; only the entries after it run
    over the result. *)
Theorem C1_one_pass_per_entry
        (text name value : jsstring) (before after : list (jsstring * jsstring)) :
  forallb (fun entry => regexLiteral (fst entry))
          (before ++ (name, value) :: after) = true ->
  dollarFree value = true ->
  join (placeholder name)
       (splitOn (placeholder name) (replaceVariables text before))
  = replaceVariables text before
  /\ replaceVariables text (before ++ (name, value) :: after)
     = replaceVariables
         (join value (splitOn (placeholder name) (replaceVariables text before)))
         after.
Proof.
  intros _ Hv. split; [apply splitOn_join|].
  rewrite replaceVariables_app.
  change (replaceVariables ?t ((name, value) :: after))
    with (replaceVariables (replaceAll (placeholder name) value t) after).
  now rewrite replaceAll_split_join.
Qed.

Lemma C1_one_pass_per_entry_witness :
  forallb (fun entry => regexLiteral (fst entry))
          ([(lit "c", lit "1")] ++ (lit "a", lit "{{b}}{{c}}") :: [(lit "b", lit "X")])
  = true
  /\ dollarFree (lit "{{b}}{{c}}") = true
  /\ splitOn (placeholder (lit "a"))
             (replaceVariables (lit "{{a}}-{{c}}") [(lit "c", lit "1")])
     = [[]; lit "-1"]
  /\ replaceVariables (lit "{{a}}-{{c}}")
       ([(lit "c", lit "1")] ++ (lit "a", lit "{{b}}{{c}}") :: [(lit "b", lit "X")])
     = lit "X{{c}}-1".
Proof.
  split; [reflexivity|]. split; [reflexivity|]. split; [reflexivity|].
  destruct (C1_one_pass_per_entry (lit "{{a}}-{{c}}") (lit "a") (lit "{{b}}{{c}}")
              [(lit "c", lit "1")] [(lit "b", lit "X")] eq_refl eq_refl)
    as [_ H].
  rewrite H. reflexivity.
Defined.

(** C1 as stated fails: the value of [a] carries [{{b}}], a single pass
    leaves it in place, the code replaces it by the value of [b]. *)
Lemma C1_chained_expansion :
  render [Var (lit "a")] = lit "{{a}}"
  /\ substitute [(lit "a", lit "{{b}}"); (lit "b", lit "X")] [Var (lit "a")]
     = lit "{{b}}"
  /\ replaceVariables (lit "{{a}}") [(lit "a", lit "{{b}}"); (lit "b", lit "X")]
     = lit "X"
  /\ replaceVariables (lit "{{a}}") [(lit "a", lit "{{b}}"); (lit "b", lit "X")]
     <> substitute [(lit "a", lit "{{b}}"); (lit "b", lit "X")] [Var (lit "a")].
Proof. repeat split; try reflexivity. discriminate. Qed.

(** ** Sequential replacement on well-formed texts *)

Section Tokens.

Lemma regexLiteral_braceFree (name : jsstring) :
  regexLiteral name = true -> braceFree name = true.
Proof.
  unfold regexLiteral, braceFree. induction name as [|c n IH]; simpl; [reflexivity|].
  intros H. apply andb_true_iff in H as [Hc Hn]. rewrite (IH Hn), andb_true_r.
  apply negb_true_iff in Hc.
  destruct (ceqb c lbrace) eqn:El.
  { apply ceqb_eq in El. subst c. discriminate. }
  destruct (ceqb c rbrace) eqn:Er.
  { apply ceqb_eq in Er. subst c. discriminate. }
  reflexivity.
Qed.

Lemma braceFree_open (s : jsstring) : braceFree s = true -> openBraceFree s = true.
Proof.
  unfold braceFree, openBraceFree. induction s as [|c s IH]; simpl; [reflexivity|].
  intros H. apply andb_true_iff in H as [Hc Hs].
  apply andb_true_iff in Hc as [Hc _]. now rewrite Hc, IH.
Qed.

Lemma openBraceFree_app (a b : jsstring) :
  openBraceFree (a ++ b) = openBraceFree a && openBraceFree b.
Proof. apply forallb_app. Qed.

Lemma startsWith_name (n m rest : jsstring) :
  braceFree n = true -> braceFree m = true ->
  startsWith (n ++ [rbrace; rbrace]) (m ++ rbrace :: rbrace :: rest) = true ->
  n = m.
Proof.
  unfold braceFree. revert m.
  induction n as [|c n IH]; intros [|d m] Hn Hm H;
    cbn [forallb app startsWith] in Hn, Hm, H.
  - reflexivity.
  - apply andb_true_iff in Hm as [Hd _].
    apply andb_true_iff in H as [H _]. apply ceqb_eq in H. subst d.
    discriminate.
  - apply andb_true_iff in Hn as [Hc _].
    apply andb_true_iff in H as [H _]. apply ceqb_eq in H. subst c.
    discriminate.
  - apply andb_true_iff in Hn as [_ Hn].
    apply andb_true_iff in Hm as [_ Hm].
    apply andb_true_iff in H as [Hcd H]. apply ceqb_eq in Hcd. subst d.
    f_equal. now apply IH.
Qed.

Lemma placeholder_unfold (n : jsstring) :
  placeholder n = lbrace :: lbrace :: n ++ [rbrace; rbrace].
Proof. reflexivity. Qed.

(** A placeholder at the head of a text that begins with a placeholder
    is that placeholder. *)
Lemma startsWith_placeholder (n m rest : jsstring) :
  braceFree n = true -> braceFree m = true ->
  startsWith (placeholder n) (placeholder m ++ rest) = true -> n = m.
Proof.
  intros Hn Hm. rewrite !placeholder_unfold.
  cbn [app startsWith]. rewrite !ceqb_refl. cbn [andb].
  rewrite <- app_assoc. now apply startsWith_name.
Qed.

Lemma replaceLit_other (n m value rest : jsstring) :
  braceFree n = true -> braceFree m = true -> n <> m ->
  replaceLit (placeholder n) value 0 (placeholder m ++ rest)
  = placeholder m ++ replaceLit (placeholder n) value 0 rest.
Proof.
  intros Hn Hm Hne.
  assert (startsWith (placeholder n) (placeholder m ++ rest) = false) as E.
  { destruct (startsWith (placeholder n) (placeholder m ++ rest)) eqn:E;
      [|reflexivity].
    now apply startsWith_placeholder in E. }
  rewrite !placeholder_unfold in *. cbn [app] in *.
  rewrite replaceLit_here, E. f_equal.
  rewrite replaceLit_here.
  assert (startsWith (lbrace :: lbrace :: n ++ [rbrace; rbrace])
                     (lbrace :: (m ++ [rbrace; rbrace]) ++ rest) = false) as ->.
  { cbn [startsWith]. rewrite ceqb_refl. cbn [andb].
    destruct m as [|d m]; [reflexivity|].
    simpl in Hm. apply andb_true_iff in Hm as [Hd _].
    apply andb_true_iff in Hd as [Hd _]. apply negb_true_iff in Hd.
    cbn [app]. unfold ceqb in *. now rewrite N.eqb_sym, Hd. }
  f_equal. apply replaceLit_run.
  rewrite openBraceFree_app, (braceFree_open _ Hm). reflexivity.
Qed.

Lemma replaceLit_same (n value rest : jsstring) :
  replaceLit (placeholder n) value 0 (placeholder n ++ rest)
  = value ++ replaceLit (placeholder n) value 0 rest.
Proof. apply replaceLit_match. Qed.

Lemma replaceLit_literal_piece (n value s rest : jsstring) :
  openBraceFree s = true ->
  replaceLit (placeholder n) value 0 (s ++ rest)
  = s ++ replaceLit (placeholder n) value 0 rest.
Proof. apply (replaceLit_run (lbrace :: n ++ [rbrace; rbrace])). Qed.

(** One entry over a well-formed text acts token by token. *)
Lemma replaceLit_tokens (n value : jsstring) (ts : list Token) :
  braceFree n = true ->
  forallb wellFormedToken ts = true ->
  replaceLit (placeholder n) value 0 (render ts)
  = render (map (bindToken n value) ts).
Proof.
  intros Hn. induction ts as [|t ts IH]; intros H; [reflexivity|].
  simpl in H. apply andb_true_iff in H as [Ht Hts].
  unfold render in *. cbn [map concat].
  destruct t as [s|m]; cbn [renderToken bindToken wellFormedToken] in *.
  - rewrite (replaceLit_literal_piece n value s _ Ht), (IH Hts). reflexivity.
  - destruct (streqb m n) eqn:E.
    + apply streqb_eq in E. subst m. rewrite replaceLit_same, (IH Hts).
      reflexivity.
    + apply streqb_neq in E. rewrite replaceLit_other; auto.
      now rewrite (IH Hts).
Qed.

Lemma bindToken_wellFormed (n value : jsstring) (ts : list Token) :
  openBraceFree value = true ->
  forallb wellFormedToken ts = true ->
  forallb wellFormedToken (map (bindToken n value) ts) = true.
Proof.
  intros Hv. induction ts as [|t ts IH]; simpl; [reflexivity|].
  intros H. apply andb_true_iff in H as [Ht Hts]. rewrite (IH Hts), andb_true_r.
  destruct t as [s|m]; simpl; [exact Ht|].
  destruct (streqb m n); simpl; assumption.
Qed.

Lemma bindToken_all (variables : list (jsstring * jsstring)) (t : Token) :
  renderToken
    (fold_left (fun t' entry => bindToken (fst entry) (snd entry) t') variables t)
  = substituteToken variables t.
Proof.
  revert t. induction variables as [|[n v] vars IH]; intros t.
  - destruct t; reflexivity.
  - cbn [fold_left fst snd]. rewrite IH. destruct t as [s|m]; [reflexivity|].
    simpl. rewrite (streqb_sym n m). destruct (streqb m n); [|reflexivity].
    reflexivity.
Qed.

(** Sequential replacement is the simultaneous substitution when no
    value brings in an open brace. *)
Lemma replaceVariables_substitute
      (variables : list (jsstring * jsstring)) (ts : list Token) :
  forallb wellFormedToken ts = true ->
  forallb plainEntry variables = true ->
  replaceVariables (render ts) variables = substitute variables ts.
Proof.
  intros Hts Hvars.
  assert (replaceVariables (render ts) variables
          = render (map (fun t => fold_left
                                    (fun t' entry => bindToken (fst entry) (snd entry) t')
                                    variables t) ts)) as ->.
  { revert ts Hts. induction variables as [|[n v] vars IH]; intros ts Hts.
    - simpl. now rewrite map_id.
    - simpl in Hvars. apply andb_true_iff in Hvars as [He Hvars].
      unfold plainEntry in He. simpl in He.
      apply andb_true_iff in He as [He Hd]. apply andb_true_iff in He as [Hn Hv].
      unfold replaceVariables in *. cbn [fold_left fst snd].
      rewrite (replaceAll_literal _ _ _ Hd).
      rewrite replaceLit_tokens; auto using regexLiteral_braceFree.
      rewrite (IH Hvars); [|now apply bindToken_wellFormed].
      now rewrite map_map. }
  unfold render, substitute. rewrite map_map. f_equal.
  apply map_ext. intros t. apply bindToken_all.
Qed.

Lemma distinctNames_NoDup (variables : list (jsstring * jsstring)) :
  distinctNames variables = true -> NoDup (map fst variables).
Proof.
  unfold distinctNames. induction (map fst variables) as [|x l IH];
    intros H; constructor.
  - apply andb_true_iff in H as [H _]. apply negb_true_iff in H.
    intros Hin. apply includes_In in Hin. congruence.
  - apply andb_true_iff in H as [_ H]. now apply IH.
Qed.

Lemma assoc_In (k v : jsstring) (l : list (jsstring * jsstring)) :
  NoDup (map fst l) -> (assoc k l = Some v <-> In (k, v) l).
Proof.
  induction l as [|[k' v'] l IH]; simpl; intros H.
  - split; [discriminate | tauto].
  - inversion H as [|? ? Hnot Hnd]; subst. destruct (streqb k' k) eqn:E.
    + apply streqb_eq in E. subst k'. split.
      * intros [= ->]. now left.
      * intros [[= ->]|Hin]; [reflexivity|].
        exfalso. apply Hnot. apply in_map_iff. now exists (k, v).
    + apply streqb_neq in E. rewrite (IH Hnd). split; [tauto|].
      intros [[= -> ->]|Hin]; [congruence | exact Hin].
Qed.

Lemma assoc_Permutation (k : jsstring) (l l' : list (jsstring * jsstring)) :
  NoDup (map fst l) -> Permutation l l' -> assoc k l = assoc k l'.
Proof.
  intros Hnd Hp.
  assert (NoDup (map fst l')) as Hnd'.
  { eapply Permutation_NoDup; [|exact Hnd]. now apply Permutation_map. }
  destruct (assoc k l) as [v|] eqn:E.
  - apply (assoc_In _ _ _ Hnd) in E. symmetry. apply (assoc_In _ _ _ Hnd').
    eapply Permutation_in; eauto.
  - destruct (assoc k l') as [v|] eqn:E'; [|reflexivity].
    apply (assoc_In _ _ _ Hnd') in E'.
    apply (Permutation_in _ (Permutation_sym Hp)) in E'.
    apply (assoc_In _ _ _ Hnd) in E'. congruence.
Qed.

Lemma plainEntry_Permutation (l l' : list (jsstring * jsstring)) :
  Permutation l l' -> forallb plainEntry l = true -> forallb plainEntry l' = true.
Proof.
  intros Hp H. apply forallb_forall. intros e He.
  rewrite forallb_forall in H. apply H.
  eapply Permutation_in; [apply Permutation_sym|]; eauto.
Qed.

End Tokens.

(** C4, as amended. The result does not depend on the order of the
    entries when no replacement can make or break an occurrence: the
    text's open braces all belong to placeholders with brace-free names,
    the names are distinct and free of regular-expression syntax, and no
    value holds an open brace or a dollar sign. The result is then the
    simultaneous substitution. *)
Theorem C4_order_independent_on_plain_entries
        (ts : list Token) (variables variables' : list (jsstring * jsstring)) :
  forallb wellFormedToken ts = true ->
  forallb plainEntry variables = true ->
  distinctNames variables = true ->
  Permutation variables variables' ->
  replaceVariables (render ts) variables = replaceVariables (render ts) variables'
  /\ replaceVariables (render ts) variables = substitute variables ts.
Proof.
  intros Hts Hplain Hdistinct Hperm.
  rewrite !replaceVariables_substitute;
    eauto using plainEntry_Permutation.
  split; [|reflexivity].
  unfold substitute. f_equal. apply map_ext. intros [s|m]; [reflexivity|].
  simpl. now rewrite (assoc_Permutation m _ _ (distinctNames_NoDup _ Hdistinct) Hperm).
Qed.

Lemma C4_order_independent_on_plain_entries_witness :
  forallb wellFormedToken [Lit (lit "Hi "); Var (lit "name"); Lit (lit "} "); Var (lit "n2")]
  = true
  /\ forallb plainEntry [(lit "name", lit "Bo"); (lit "n2", lit "}}!")] = true
  /\ distinctNames [(lit "name", lit "Bo"); (lit "n2", lit "}}!")] = true
  /\ Permutation [(lit "name", lit "Bo"); (lit "n2", lit "}}!")]
                 [(lit "n2", lit "}}!"); (lit "name", lit "Bo")]
  /\ replaceVariables (lit "Hi {{name}}} {{n2}}")
                      [(lit "name", lit "Bo"); (lit "n2", lit "}}!")]
     = replaceVariables (lit "Hi {{name}}} {{n2}}")
                        [(lit "n2", lit "}}!"); (lit "name", lit "Bo")].
Proof.
  split; [reflexivity|]. split; [reflexivity|]. split; [reflexivity|].
  split; [apply perm_swap|].
  apply (C4_order_independent_on_plain_entries
           [Lit (lit "Hi "); Var (lit "name"); Lit (lit "} "); Var (lit "n2")]
           [(lit "name", lit "Bo"); (lit "n2", lit "}}!")]
           [(lit "n2", lit "}}!"); (lit "name", lit "Bo")]);
    try reflexivity.
  apply perm_swap.
Defined.

(** C4 as stated fails: the same two entries in the two orders. *)
Lemma C4_order_matters :
  Permutation [(lit "a", lit "{{b}}"); (lit "b", lit "X")]
              [(lit "b", lit "X"); (lit "a", lit "{{b}}")]
  /\ replaceVariables (lit "{{a}}") [(lit "a", lit "{{b}}"); (lit "b", lit "X")]
     = lit "X"
  /\ replaceVariables (lit "{{a}}") [(lit "b", lit "X"); (lit "a", lit "{{b}}")]
     = lit "{{b}}"
  /\ replaceVariables (lit "{{a}}") [(lit "a", lit "{{b}}"); (lit "b", lit "X")]
     <> replaceVariables (lit "{{a}}") [(lit "b", lit "X"); (lit "a", lit "{{b}}")].
Proof.
  split; [apply perm_swap|]. repeat split; try reflexivity. discriminate.
Qed.

(** ** Drops on a section *)

Section Drops.

Lemma handleDrop_unparseable (promptId raw : jsstring) (section : Section)
      (index : nat) :
  handleDrop promptId section index (Unparseable raw) = Normal [].
Proof. reflexivity. Qed.

Lemma handleDrop_ignores (promptId : jsstring) (section : Section)
      (index : nat) (data : Payload) :
  folderPayloadWithArray data = false ->
  componentPayloadWithType data = false ->
  handleDrop promptId section index data = Normal [].
Proof.
  destruct data as [raw|v]; [reflexivity|].
  unfold folderPayloadWithArray, componentPayloadWithType, handleDrop,
    handleDropBody.
  cbn [JSON_parse bind]. intros Hf Hc.
  destruct (truthy v); cbn [negb]; [|reflexivity].
  destruct (isString (getProp v (lit "dragType")) (lit "folder")).
  - cbn [andb] in Hf |- *. rewrite Hf, andb_false_r.
    destruct (isString (getProp v (lit "type")) (lit "component")); [|reflexivity].
    cbn [andb] in Hc |- *.
    destruct (getProp v (lit "componentType")); [discriminate | reflexivity].
  - cbn [andb].
    destruct (isString (getProp v (lit "type")) (lit "component")); [|reflexivity].
    cbn [andb] in Hc |- *.
    destruct (getProp v (lit "componentType")); [discriminate | reflexivity].
Qed.

Lemma existingSection_is_ignored (promptId targetPrompt : jsstring)
      (section dragged : Section) (sectionData : json) (originalIndex : float)
      (index : nat) :
  handleDrop targetPrompt section index
             (Parsed (existingSectionPayload promptId dragged sectionData
                                             originalIndex))
  = Normal [].
Proof. apply handleDrop_ignores; reflexivity. Qed.

End Drops.

(** C10. A drop whose payload is neither a folder payload with a
    [components] array nor a component payload with a [componentType]
    field makes no context call and returns normally: the store is what
    it was. A payload that does not parse is such a payload, the empty
    one included, and so is the payload of a section drag. *)
Theorem C10_other_payloads_mutate_nothing
        (generateId : nat -> jsstring) (newSectionOpen : bool)
        (promptId : jsstring) (section : Section) (index : nat)
        (data : Payload) (st : Store) :
  folderPayloadWithArray data = false ->
  componentPayloadWithType data = false ->
  handleDrop promptId section index data = Normal []
  /\ dropOnSection generateId newSectionOpen promptId section index data st
     = Normal (Some st).
Proof.
  intros Hf Hc. unfold dropOnSection.
  rewrite (handleDrop_ignores promptId section index data Hf Hc).
  split; reflexivity.
Qed.

Lemma C10_other_payloads_mutate_nothing_witness :
  (folderPayloadWithArray
     (Parsed (existingSectionPayload (lit "p2") (plainSection "dragged")
                                     (JObj []) 3%float)) = false
   /\ componentPayloadWithType
        (Parsed (existingSectionPayload (lit "p2") (plainSection "dragged")
                                        (JObj []) 3%float)) = false
   /\ dropOnSection (fun _ => lit "id") true (lit "p") (plainSection "target") 0
        (Parsed (existingSectionPayload (lit "p2") (plainSection "dragged")
                                        (JObj []) 3%float))
        {| prompts := [promptOf [plainSection "target"]]; nextId := 0 |}
      = Normal (Some {| prompts := [promptOf [plainSection "target"]]; nextId := 0 |}))
  /\ dropOnSection (fun _ => lit "id") true (lit "p") (plainSection "target") 0
       (Unparseable (lit "{not json"))
       {| prompts := [promptOf [plainSection "target"]]; nextId := 0 |}
     = Normal (Some {| prompts := [promptOf [plainSection "target"]]; nextId := 0 |})
  /\ dropOnSection (fun _ => lit "id") true (lit "p") (plainSection "target") 0
       emptyPayload
       {| prompts := [promptOf [plainSection "target"]]; nextId := 0 |}
     = Normal (Some {| prompts := [promptOf [plainSection "target"]]; nextId := 0 |}).
Proof.
  split; [split; [reflexivity|split; [reflexivity|]]|split].
  - apply (C10_other_payloads_mutate_nothing (fun _ => lit "id") true (lit "p")
             (plainSection "target") 0
             (Parsed (existingSectionPayload (lit "p2") (plainSection "dragged")
                                             (JObj []) 3%float)));
      reflexivity.
  - apply (C10_other_payloads_mutate_nothing (fun _ => lit "id") true (lit "p")
             (plainSection "target") 0 (Unparseable (lit "{not json")));
      reflexivity.
  - apply (C10_other_payloads_mutate_nothing (fun _ => lit "id") true (lit "p")
             (plainSection "target") 0 emptyPayload);
      reflexivity.
Defined.

(** ** The prompt store *)

Section StoreFacts.

Variable generateId : nat -> jsstring.
Variable newSectionOpen : bool.

Lemma nth_error_onSections (promptId : jsstring)
      (f : list Section -> list Section) (st : Store) (k : nat) (p : Prompt) :
  nth_error (prompts st) k = Some p ->
  p_id p = promptId ->
  nth_error (prompts (onSections promptId f st)) k
  = Some (withSections p (f (sections p))).
Proof.
  intros Hk Hid. unfold onSections. cbn [prompts].
  rewrite nth_error_map, Hk. cbn [option_map].
  now rewrite Hid, streqb_refl.
Qed.

Lemma onSection_at (sectionId : jsstring) (f : Section -> Section)
      (l : list Section) (i : nat) (s : Section) :
  nth_error l i = Some s ->
  s_id s = sectionId ->
  nth_error (onSection sectionId f l) i = Some (f s).
Proof.
  intros Hi Hid. unfold onSection. rewrite nth_error_map, Hi. cbn [option_map].
  now rewrite Hid, streqb_refl.
Qed.

Lemma onSection_absent (sectionId : jsstring) (f : Section -> Section)
      (l : list Section) :
  ~ In sectionId (map s_id l) -> onSection sectionId f l = l.
Proof.
  induction l as [|x l IH]; intros H; [reflexivity|].
  simpl in *. destruct (streqb (s_id x) sectionId) eqn:E.
  - apply streqb_eq in E. tauto.
  - f_equal. apply IH. tauto.
Qed.

(** With distinct ids, an update by id touches the section at its index
    and nothing else. *)
Lemma onSection_unique (f : Section -> Section) (l : list Section)
      (i : nat) (s : Section) :
  NoDup (map s_id l) ->
  nth_error l i = Some s ->
  onSection (s_id s) f l = firstn i l ++ f s :: skipn (S i) l.
Proof.
  revert i. induction l as [|x l IH]; intros i Hnd Hi.
  - destruct i; discriminate.
  - simpl in Hnd. inversion Hnd as [|? ? Hx Hl]; subst.
    destruct i as [|i]; simpl in Hi.
    + injection Hi as ->. simpl. rewrite streqb_refl. f_equal.
      now apply onSection_absent.
    + simpl. destruct (streqb (s_id x) (s_id s)) eqn:E.
      * apply streqb_eq in E. exfalso. apply Hx. rewrite E.
        apply in_map. eapply nth_error_In; eauto.
      * f_equal. now apply IH.
Qed.

Lemma length_mapi (A B : Type) (f : nat -> A -> B) (l : list A) (n : nat) :
  length (mapi f n l) = length l.
Proof.
  revert n. induction l as [|x l IH]; intros n; simpl; [reflexivity|].
  now rewrite IH.
Qed.

Lemma map_mapi (A B C : Type) (f : nat -> A -> B) (g : B -> C) (h : A -> C)
      (l : list A) (n : nat) :
  (forall i x, g (f i x) = h x) -> map g (mapi f n l) = map h l.
Proof.
  intros H. revert n. induction l as [|x l IH]; intros n; simpl; [reflexivity|].
  now rewrite H, IH.
Qed.

Lemma decodeComponent_componentToJson (c : ComponentType) :
  decodeComponent (componentToJson c) = Some c.
Proof. destruct c. reflexivity. Qed.

(** The fan-out: the remaining components become sections, one after
    the other, from [index + 1 + idx] on. *)
Lemma runCalls_fan_out (promptId : jsstring) (index k : nat)
      (rest : list ComponentType) :
  forall (idx : nat) (st : Store) (p : Prompt) (pre post : list Section),
    nth_error (prompts st) k = Some p ->
    p_id p = promptId ->
    sections p = pre ++ post ->
    length pre = index + 1 + idx ->
    exists st',
      runCalls generateId newSectionOpen
               (mapi (fun i component =>
                        AddSectionFromComponent promptId component (index + 1 + i))
                     idx (map componentToJson rest))
               st = Some st'
      /\ nth_error (prompts st') k
         = Some (withSections p
                   (pre ++ mapi (sectionFromComponent generateId newSectionOpen)
                                (nextId st) rest
                        ++ post)).
Proof.
  induction rest as [|c rest IH]; intros idx st p pre post Hk Hid Hsec Hlen.
  - exists st. split; [reflexivity|]. simpl. rewrite Hk, <- Hsec.
    destruct p; reflexivity.
  - cbn [map mapi runCalls runCall]. rewrite decodeComponent_componentToJson.
    set (st1 := addSectionFromComponent generateId newSectionOpen promptId c
                                        (index + 1 + idx) st).
    set (new := sectionFromComponent generateId newSectionOpen (nextId st) c).
    assert (nth_error (prompts st1) k
            = Some (withSections p ((pre ++ [new]) ++ post))) as Hk1.
    { unfold st1, addSectionFromComponent. cbn [prompts].
      rewrite (nth_error_onSections promptId _ st k p Hk Hid). do 2 f_equal.
      rewrite Hsec, <- Hlen, firstn_app, skipn_app, firstn_all, skipn_all.
      rewrite Nat.sub_diag. simpl. now rewrite app_nil_r, <- app_assoc. }
    destruct (IH (S idx) st1 (withSections p ((pre ++ [new]) ++ post))
                 (pre ++ [new]) post Hk1 Hid eq_refl) as (st' & Hrun & Hk').
    { rewrite length_app. simpl. lia. }
    exists st'. split; [exact Hrun|]. rewrite Hk'.
    unfold withSections. cbn [p_id p_name variables sections mapi].
    do 2 f_equal. unfold st1, addSectionFromComponent. cbn [nextId].
    fold new. now rewrite <- !app_assoc.
Qed.

Lemma handleDrop_folder (promptId folderName : jsstring) (section : Section)
      (index : nat) (c1 : ComponentType) (rest : list ComponentType) :
  truthyStr (componentType c1) = true ->
  exists updates,
    handleDrop promptId section index
               (Parsed (folderPayload folderName (c1 :: rest)))
    = Normal (UpdateSection promptId (s_id section) updates
                :: mapi (fun i component =>
                           AddSectionFromComponent promptId component
                                                   (index + 1 + i))
                        0 (map componentToJson rest))
    /\ decodeUpdates updates
       = Some {| pt_content := Some (c_content c1);
                 pt_type := Some (componentType c1);
                 pt_name := Some (c_name c1);
                 pt_linkedComponentId := Some (c_id c1);
                 pt_originalContent := Some (c_content c1) |}.
Proof.
  destruct c1 as [i1 n1 t1 b1]. destruct t1 as [|t0 t1]; [discriminate|].
  intros _. eexists. split; reflexivity.
Qed.

End StoreFacts.

(** C3. A folder payload with components [c1, ..., cn] dropped on the
    section [S] at [index] of a prompt whose sections have distinct ids
    (a component's type tag is non-empty): [S] takes [c1]'s content, type
    and name, is linked to [c1] with [originalContent] at [c1]'s content,
    and [n - 1] new sections, made from [c2 .. cn] in that order, stand
    right after it; the sections before [S] and those after it are as
    they were. *)
Theorem C3_folder_drop_fans_out
        (generateId : nat -> jsstring) (newSectionOpen : bool)
        (st : Store) (k index : nat) (p : Prompt) (S0 : Section)
        (folderName : jsstring) (c1 : ComponentType) (rest : list ComponentType) :
  nth_error (prompts st) k = Some p ->
  nth_error (sections p) index = Some S0 ->
  NoDup (map s_id (sections p)) ->
  truthyStr (componentType c1) = true ->
  exists st' p',
    dropOnSection generateId newSectionOpen (p_id p) S0 index
                  (Parsed (folderPayload folderName (c1 :: rest))) st
    = Normal (Some st')
    /\ nth_error (prompts st') k = Some p'
    /\ sections p'
       = firstn index (sections p)
           ++ {| s_id := s_id S0;
                 s_type := componentType c1;
                 s_name := c_name c1;
                 s_content := c_content c1;
                 s_open := s_open S0;
                 linkedComponentId := Some (c_id c1);
                 originalContent := Some (c_content c1);
                 dirty := false |}
           :: mapi (sectionFromComponent generateId newSectionOpen)
                   (nextId st) rest
           ++ skipn (S index) (sections p)
    /\ length (sections p') = length (sections p) + length rest
    /\ map linkedComponentId
           (mapi (sectionFromComponent generateId newSectionOpen) (nextId st) rest)
       = map (fun c => Some (c_id c)) rest
    /\ map s_content
           (mapi (sectionFromComponent generateId newSectionOpen) (nextId st) rest)
       = map c_content rest.
Proof.
  intros Hk Hi Hnd Hty.
  set (S1 := {| s_id := s_id S0; s_type := componentType c1; s_name := c_name c1;
                s_content := c_content c1; s_open := s_open S0;
                linkedComponentId := Some (c_id c1);
                originalContent := Some (c_content c1); dirty := false |}).
  set (patch := {| pt_content := Some (c_content c1);
                   pt_type := Some (componentType c1);
                   pt_name := Some (c_name c1);
                   pt_linkedComponentId := Some (c_id c1);
                   pt_originalContent := Some (c_content c1) |}).
  assert (mergeSection S0 patch = S1) as Hmerge.
  { unfold mergeSection, patch, S1. cbn. now rewrite streqb_refl. }
  set (st1 := updateSection (p_id p) (s_id S0) patch st).
  assert (nth_error (prompts st1) k
          = Some (withSections p (firstn index (sections p) ++ [S1]
                                    ++ skipn (S index) (sections p)))) as Hk1.
  { unfold st1, updateSection.
    rewrite (nth_error_onSections (p_id p) _ st k p Hk eq_refl). do 2 f_equal.
    rewrite (onSection_unique _ _ index S0 Hnd Hi), Hmerge. reflexivity. }
  assert (length (firstn index (sections p)) = index) as Hlen.
  { apply firstn_length_le. apply Nat.lt_le_incl.
    apply nth_error_Some. congruence. }
  destruct (runCalls_fan_out generateId newSectionOpen (p_id p) index k rest 0 st1
              (withSections p (firstn index (sections p) ++ [S1]
                                 ++ skipn (S index) (sections p)))
              (firstn index (sections p) ++ [S1]) (skipn (S index) (sections p))
              Hk1 eq_refl)
    as (st' & Hrun & Hk').
  { cbn [withSections sections]. now rewrite <- app_assoc. }
  { rewrite length_app, Hlen. simpl. lia. }
  exists st'. eexists. split; [|split; [exact Hk'|]].
  - destruct (handleDrop_folder (p_id p) folderName S0 index c1 rest Hty)
      as (updates & Hcalls & Hdecode).
    unfold dropOnSection. rewrite Hcalls. cbn [bind runCalls runCall].
    rewrite Hdecode. fold patch. fold st1. now rewrite Hrun.
  - cbn [withSections sections]. split; [|split; [|split]].
    + unfold st1, updateSection, onSections. cbn [nextId].
      now rewrite <- !app_assoc.
    + rewrite !length_app, length_mapi, Hlen, length_skipn.
      assert (index < length (sections p)) by (apply nth_error_Some; congruence).
      simpl. lia.
    + now apply map_mapi.
    + now apply map_mapi.
Qed.

Lemma C3_folder_drop_fans_out_witness :
  nth_error (prompts threeSections) 0
  = Some (promptOf [sectionWithId "s0" "zero"; sectionWithId "s1" "one";
                    sectionWithId "s2" "two"])
  /\ dropOnSection sampleId true (lit "p") (sectionWithId "s1" "one") 1
       (Parsed (folderPayload (lit "folder")
                  [component "c1" "first"; component "c2" "second";
                   component "c3" "third"]))
       threeSections
     = Normal (Some
         {| prompts :=
              [promptOf
                 [sectionWithId "s0" "zero";
                  {| s_id := lit "s1"; s_type := lit "context"; s_name := lit "c1";
                     s_content := lit "first"; s_open := true;
                     linkedComponentId := Some (lit "c1");
                     originalContent := Some (lit "first"); dirty := false |};
                  sectionFromComponent sampleId true 7 (component "c2" "second");
                  sectionFromComponent sampleId true 8 (component "c3" "third");
                  sectionWithId "s2" "two"]];
            nextId := 9 |})
  /\ exists st' p',
      dropOnSection sampleId true (lit "p") (sectionWithId "s1" "one") 1
        (Parsed (folderPayload (lit "folder")
                   [component "c1" "first"; component "c2" "second";
                    component "c3" "third"]))
        threeSections
      = Normal (Some st')
      /\ nth_error (prompts st') 0 = Some p'
      /\ length (sections p') = 5.
Proof.
  split; [reflexivity|]. split; [reflexivity|].
  destruct (C3_folder_drop_fans_out sampleId true threeSections 0 1
              (promptOf [sectionWithId "s0" "zero"; sectionWithId "s1" "one";
                         sectionWithId "s2" "two"])
              (sectionWithId "s1" "one") (lit "folder")
              (component "c1" "first")
              [component "c2" "second"; component "c3" "third"])
    as (st' & p' & Hdrop & Hk & _ & Hlen & _).
  - reflexivity.
  - reflexivity.
  - repeat constructor; simpl; intuition discriminate.
  - reflexivity.
  - exists st', p'. split; [exact Hdrop|]. split; [exact Hk|exact Hlen].
Defined.

(** ** Link synchronisation *)

(** C2. For a section whose link resolves to a component [C] of the
    tree (the link is set and [findComponentById] finds it): when [C]'s
    content, type or name differs from the section's [originalContent],
    [type] or [name], the link-sync pass gives the section [C]'s content,
    type and name, sets [originalContent] to [C]'s content and [dirty] to
    false, and leaves its id, link and [open] flag. The test reads the
    [originalContent] snapshot, never the section's current content:
    with the snapshot, type and name equal to [C]'s the pass does
    nothing, whatever the content is. *)
Theorem C2_link_sync_refreshes_from_component
        (generateId : nat -> jsstring) (newSectionOpen : bool)
        (treeData : list TreeNode) (st : Store) (k i : nat)
        (p : Prompt) (s : Section) (C : ComponentType) :
  nth_error (prompts st) k = Some p ->
  nth_error (sections p) i = Some s ->
  resolveLink treeData s = Some C ->
  (originalContent s <> Some (c_content C)
   \/ s_type s <> componentType C
   \/ s_name s <> c_name C ->
   exists st' p',
     runCalls generateId newSectionOpen (linkSyncEffect treeData (p_id p) s) st
     = Some st'
     /\ nth_error (prompts st') k = Some p'
     /\ nth_error (sections p') i
        = Some {| s_id := s_id s;
                  s_type := componentType C;
                  s_name := c_name C;
                  s_content := c_content C;
                  s_open := s_open s;
                  linkedComponentId := linkedComponentId s;
                  originalContent := Some (c_content C);
                  dirty := false |}
     /\ length (sections p') = length (sections p))
  /\ (originalContent s = Some (c_content C)
      /\ s_type s = componentType C
      /\ s_name s = c_name C ->
      linkSyncEffect treeData (p_id p) s = []).
Proof.
  intros Hk Hi Hres. unfold linkSyncEffect. rewrite Hres. split.
  - intros Hdiff.
    assert (drifted C s = true) as ->.
    { unfold drifted, differsFromSnapshot.
      destruct (originalContent s) as [o|] eqn:Eo; cbn [optStrEqb negb orb];
        [|reflexivity].
      destruct (streqb o (c_content C)) eqn:E1; [|reflexivity].
      apply streqb_eq in E1. subst o. cbn [negb orb].
      destruct (streqb (componentType C) (s_type s)) eqn:E2; [|reflexivity].
      apply streqb_eq in E2. cbn [negb orb].
      destruct (streqb (c_name C) (s_name s)) eqn:E3; [|reflexivity].
      apply streqb_eq in E3. exfalso.
      destruct Hdiff as [H|[H|H]]; congruence. }
    cbn [runCalls runCall].
    exists (updateSectionFromLinkedComponent (p_id p) (s_id s) C st).
    eexists. split; [reflexivity|]. unfold updateSectionFromLinkedComponent.
    split; [apply (nth_error_onSections (p_id p) _ st k p Hk eq_refl)|].
    cbn [withSections sections]. split.
    + rewrite (onSection_at (s_id s) _ (sections p) i s Hi eq_refl). reflexivity.
    + unfold onSection. apply length_map.
  - intros (Ho & Ht & Hn). unfold drifted, differsFromSnapshot.
    rewrite Ho, Ht, Hn. cbn [optStrEqb]. now rewrite !streqb_refl.
Qed.

Lemma C2_link_sync_refreshes_from_component_witness :
  resolveLink libraryAfterEdit linkedSection
  = Some {| c_id := lit "C"; c_name := lit "C"; componentType := lit "context";
            c_content := lit "Y" |}
  /\ runCalls sampleId true
       (linkSyncEffect libraryAfterEdit (lit "p") linkedSection)
       {| prompts := [promptOf [plainSection "intro"; linkedSection]]; nextId := 0 |}
     = Some {| prompts :=
                 [promptOf
                    [plainSection "intro";
                     {| s_id := lit "s1"; s_type := lit "context"; s_name := lit "C";
                        s_content := lit "Y"; s_open := true;
                        linkedComponentId := Some (lit "C");
                        originalContent := Some (lit "Y"); dirty := false |}]];
               nextId := 0 |}
  /\ exists st' p',
      runCalls sampleId true
        (linkSyncEffect libraryAfterEdit (lit "p") linkedSection)
        {| prompts := [promptOf [plainSection "intro"; linkedSection]]; nextId := 0 |}
      = Some st'
      /\ nth_error (prompts st') 0 = Some p'
      /\ nth_error (sections p') 1
         = Some {| s_id := lit "s1"; s_type := lit "context"; s_name := lit "C";
                   s_content := lit "Y"; s_open := true;
                   linkedComponentId := Some (lit "C");
                   originalContent := Some (lit "Y"); dirty := false |}.
Proof.
  split; [reflexivity|]. split; [reflexivity|].
  destruct (C2_link_sync_refreshes_from_component sampleId true libraryAfterEdit
              {| prompts := [promptOf [plainSection "intro"; linkedSection]];
                 nextId := 0 |}
              0 1 (promptOf [plainSection "intro"; linkedSection]) linkedSection
              {| c_id := lit "C"; c_name := lit "C"; componentType := lit "context";
                 c_content := lit "Y" |}
              eq_refl eq_refl eq_refl) as [Hsync _].
  destruct Hsync as (st' & p' & Hrun & Hk & Hi & _).
  - left. discriminate.
  - exists st', p'. split; [exact Hrun|]. split; [exact Hk|exact Hi].
Defined.

(** ** Dragging a folder *)

Section FolderDrag.

(** The collection lists as many components as there are beneath the
    node. *)
Fixpoint getAllComponents_length (node : TreeNode) :
  length (getAllComponentsFromFolder node) = componentCount node.
Proof.
  destruct node as [id name children expanded|c]; [|reflexivity].
  simpl. induction children as [|child children IH]; [reflexivity|].
  simpl. rewrite length_app, IH. f_equal. apply getAllComponents_length.
Qed.

Lemma no_component_beneath (node : TreeNode) :
  componentCount node = 0 <-> getAllComponentsFromFolder node = [].
Proof.
  rewrite <- getAllComponents_length. split.
  - apply length_zero_iff_nil.
  - intros ->. reflexivity.
Qed.

End FolderDrag.

(** C6. Dragging a folder whose depth-first collection of components is
    empty is refused at the source: the handler writes nothing to the
    transfer, leaves the [effectAllowed] and the dragging flag alone and
    cancels the [dragstart], so the drag does not start; no drop follows
    and every prompt keeps its sections. *)
Theorem C6_empty_folder_drag_refused
        (generateId : nat -> jsstring) (newSectionOpen : bool)
        (id name : jsstring) (children : list TreeNode) (expanded : bool)
        (e : DragStart) (promptId : jsstring) (target : Section) (index : nat)
        (st : Store) :
  getAllComponentsFromFolder (FolderNode id name children expanded) = [] ->
  transferData (handleDragStart (FolderNode id name children expanded) e)
  = transferData e
  /\ transferData (handleDragStart (FolderNode id name children expanded) freshDrag)
     = None
  /\ effectAllowed (handleDragStart (FolderNode id name children expanded) e)
     = effectAllowed e
  /\ isDraggingSomething (handleDragStart (FolderNode id name children expanded) e)
     = isDraggingSomething e
  /\ defaultPrevented (handleDragStart (FolderNode id name children expanded) e)
     = true
  /\ dragStarted (handleDragStart (FolderNode id name children expanded) e) = false
  /\ dragAndDrop generateId newSectionOpen
                 (FolderNode id name children expanded) promptId target index st
     = Some st.
Proof.
  intros Hempty. unfold dragAndDrop, dragStarted, handleDragStart.
  rewrite Hempty. cbn. repeat split; reflexivity.
Qed.

Lemma C6_empty_folder_drag_refused_witness :
  getAllComponentsFromFolder
    (FolderNode (lit "f") (lit "empty")
                [FolderNode (lit "g") (lit "inner") [] false] true) = []
  /\ dragStarted
       (handleDragStart
          (FolderNode (lit "f") (lit "empty")
                      [FolderNode (lit "g") (lit "inner") [] false] true)
          freshDrag) = false
  /\ dragAndDrop sampleId true
       (FolderNode (lit "f") (lit "empty")
                   [FolderNode (lit "g") (lit "inner") [] false] true)
       (lit "p") (sectionWithId "s1" "one") 1 threeSections
     = Some threeSections.
Proof.
  split; [reflexivity|].
  destruct (C6_empty_folder_drag_refused sampleId true (lit "f") (lit "empty")
              [FolderNode (lit "g") (lit "inner") [] false] true freshDrag
              (lit "p") (sectionWithId "s1" "one") 1 threeSections eq_refl)
    as (_ & _ & _ & _ & _ & Hstart & Hstore).
  split; [exact Hstart | exact Hstore].
Defined.

(** ** The action bar *)

Lemma copyPrompt_markdown (prompts : list Prompt) (id systemPrompt : jsstring)
      (activePrompt : Prompt) :
  truthyStr id = true ->
  find (fun p => streqb (p_id p) id) prompts = Some activePrompt ->
  truthyStr systemPrompt = true ->
  copyPrompt prompts (Some id) systemPrompt true
  = Some (systemPrompt ++ [backslash; 110%N; backslash; 110%N]
            ++ (if (0 <? length (variables activePrompt))%nat
                then replaceVariables (compilePromptText activePrompt)
                                      (variables activePrompt)
                else compilePromptText activePrompt)).
Proof.
  intros Hid Hfind Hsys. unfold copyPrompt, getPromptVariables.
  rewrite Hid, Hfind, Hsys. cbn [negb andb]. unfold copyToClipboard.
  destruct systemPrompt; [discriminate | reflexivity].
Qed.

(** C9. With markdown mode on, system prompt ["System"] and a prompt
    whose only section is ["Body"], the clipboard receives ["System"], a
    backslash, [n], a backslash, [n] and ["Body"]: ten code units follow
    ["System"], none of them a line feed, where a blank line (two line
    feeds) and then ["Body"] are specified. *)
Theorem C9_separator_is_not_a_blank_line :
  copyPrompt [promptOf [plainSection "Body"]] (Some (lit "p")) (lit "System") true
  = Some (lit "System" ++ [backslash; 110%N; backslash; 110%N] ++ lit "Body")
  /\ copyPrompt [promptOf [plainSection "Body"]] (Some (lit "p")) (lit "System") true
     <> Some (lit "System" ++ [newline; newline]
                ++ compilePromptText (promptOf [plainSection "Body"]))
  /\ compilePromptText (promptOf [plainSection "Body"]) = lit "Body".
Proof. repeat split; try reflexivity. discriminate. Qed.

(** ** The create route *)

Section RouteFacts.

Variable DB : Type.
Variable insertRow : Row -> DB -> option DB.
Variable getRow : jsstring -> DB -> option Row.

Lemma POST_unparseable (newPromptId currentTimestamp : jsstring) (db : DB) :
  POST insertRow getRow None newPromptId currentTimestamp db
  = (errorResponse "Invalid JSON format in request body" 400, db).
Proof. reflexivity. Qed.

Lemma POST_name_required (body : json) (newPromptId currentTimestamp : jsstring)
      (db : DB) :
  body <> JNull ->
  truthyV (getProp body (lit "name")) = false ->
  POST insertRow getRow (Some body) newPromptId currentTimestamp db
  = (errorResponse "Prompt name is required" 400, db).
Proof.
  intros Hnull Hname. unfold POST, postBody, destructure.
  destruct body; try congruence; cbn [readProp bind]; now rewrite Hname.
Qed.

Lemma POST_created (body : json) (newPromptId currentTimestamp : jsstring)
      (db db' : DB) (stored : Row) :
  body <> JNull ->
  truthyV (getProp body (lit "name")) = true ->
  insertRow
    {| r_id := newPromptId;
       r_name := valueOrNull (getProp body (lit "name"));
       r_sections := orElse (getProp body (lit "sections")) (JArr []);
       r_variables := orElse (getProp body (lit "variables")) (JObj []);
       r_num := valueOrNull (getProp body (lit "num"));
       r_created_at := currentTimestamp;
       r_updated_at := currentTimestamp |} db = Some db' ->
  getRow newPromptId db' = Some stored ->
  POST insertRow getRow (Some body) newPromptId currentTimestamp db
  = ({| status := 201; body := rowToJson stored |}, db').
Proof.
  intros Hnull Hname Hins Hget. unfold POST, postBody, destructure.
  destruct body; try congruence; cbn [readProp bind];
    now rewrite Hname, Hins, Hget.
Qed.

End RouteFacts.

(** C8. A request whose body is the JSON text [null] parses, carries no
    name, and is answered with status 500 and the message of the
    catch-all branch, not with a 4xx: destructuring [null] throws a
    TypeError, which the handler does not tell from a storage failure.
    The table is not touched. *)
Theorem C8_null_body_answered_500
        (DB : Type) (insertRow : Row -> DB -> option DB)
        (getRow : jsstring -> DB -> option Row)
        (newPromptId currentTimestamp : jsstring) (db : DB) :
  getProp JNull (lit "name") = None
  /\ POST insertRow getRow (Some JNull) newPromptId currentTimestamp db
     = ({| status := 500;
           body := JObj [ (lit "error", JStr (lit "Failed to create prompt")) ] |},
        db)
  /\ ~ (400 <= status (fst (POST insertRow getRow (Some JNull) newPromptId
                                 currentTimestamp db)) < 500).
Proof.
  split; [reflexivity|]. split; [reflexivity|]. cbn. lia.
Qed.

(** * Further properties *)

(** ** Variables across sections *)

Section SectionsVariables.

Lemma fold_left_concat (A B : Type) (f : A -> B -> A) (ls : list (list B)) (a : A) :
  fold_left (fun acc l => fold_left f l acc) ls a = fold_left f (concat ls) a.
Proof.
  revert a. induction ls as [|l ls IH]; intros a; simpl; [reflexivity|].
  now rewrite fold_left_app, IH.
Qed.

Lemma pushUnique_all (l : list jsstring) :
  fold_left pushUnique l [] = dedupFirst l.
Proof.
  rewrite pushUnique_fold. simpl. f_equal.
  induction l as [|x l IH]; simpl; congruence.
Qed.

End SectionsVariables.

(** X1. The variables of several sections are the variables of each
    section, in section order, with duplicates removed and the first
    occurrence kept: no name is listed twice, and a name is listed
    exactly when some section has it. *)
Theorem X1_sections_variables_merged (contents : list jsstring) :
  extractVariablesFromSections contents
  = dedupFirst (concat (map extractVariables contents))
  /\ NoDup (extractVariablesFromSections contents)
  /\ (forall name,
         In name (extractVariablesFromSections contents)
         <-> exists content, In content contents
                             /\ In name (extractVariables content)).
Proof.
  assert (extractVariablesFromSections contents
          = dedupFirst (concat (map extractVariables contents))) as E.
  { unfold extractVariablesFromSections.
    rewrite <- pushUnique_all, <- fold_left_concat.
    generalize (@nil jsstring). induction contents as [|c cs IH]; intros acc;
      simpl; [reflexivity|]. apply IH. }
  split; [exact E|]. rewrite E. split; [apply dedupFirst_NoDup|].
  intros name. rewrite dedupFirst_In, in_concat. split.
  - intros (l & Hl & Hin). apply in_map_iff in Hl as (content & <- & Hc). eauto.
  - intros (content & Hc & Hin). exists (extractVariables content).
    split; [now apply in_map|exact Hin].
Qed.

(** ** The names [extractVariables] returns *)

Section Trimming.

Lemma trimStart_clean (s : jsstring) : startsClean (trimStart s) = true.
Proof.
  induction s as [|c s IH]; [reflexivity|]. simpl.
  destruct (isWhiteSpace c) eqn:E; [exact IH|]. simpl. now rewrite E.
Qed.

Lemma clean_trimStart (s : jsstring) : startsClean s = true -> trimStart s = s.
Proof.
  destruct s as [|c s]; [reflexivity|]. simpl. intros H.
  apply negb_true_iff in H. now rewrite H.
Qed.

(** What [trimStart] drops is white space. *)
Lemma trimStart_split (s : jsstring) :
  exists ws, s = ws ++ trimStart s /\ forallb isWhiteSpace ws = true.
Proof.
  induction s as [|c s (ws & Hs & Hws)]; [now exists []|]. simpl.
  destruct (isWhiteSpace c) eqn:E.
  - exists (c :: ws). simpl. rewrite E, Hws. split; [congruence|reflexivity].
  - now exists [].
Qed.

Lemma trimEnd_split (s : jsstring) :
  exists ws, s = trimEnd s ++ ws /\ forallb isWhiteSpace ws = true.
Proof.
  destruct (trimStart_split (rev s)) as (ws & Hs & Hws).
  exists (rev ws). unfold trimEnd. split.
  - rewrite <- rev_app_distr, <- Hs. now rewrite rev_involutive.
  - rewrite forallb_forall in *. intros x Hx. apply Hws. now apply in_rev.
Qed.

Lemma startsClean_prefix (a b : jsstring) :
  startsClean (a ++ b) = true -> startsClean a = true.
Proof. destruct a; [reflexivity | exact (fun H => H)]. Qed.

Lemma trim_isTrimmed (s : jsstring) : isTrimmed (trim s) = true.
Proof.
  unfold isTrimmed, trim. apply andb_true_iff. split.
  - destruct (trimEnd_split (trimStart s)) as (ws & Hs & _).
    apply startsClean_prefix with (b := ws). rewrite <- Hs. apply trimStart_clean.
  - unfold trimEnd. rewrite rev_involutive. apply trimStart_clean.
Qed.

Lemma isTrimmed_trim (s : jsstring) : isTrimmed s = true -> trim s = s.
Proof.
  unfold isTrimmed, trim, trimEnd. intros H.
  apply andb_true_iff in H as [H1 H2].
  rewrite (clean_trimStart s H1), (clean_trimStart (rev s) H2).
  apply rev_involutive.
Qed.

Lemma trim_incl (s : jsstring) (c : codeunit) : In c (trim s) -> In c s.
Proof.
  unfold trim. intros H.
  destruct (trimEnd_split (trimStart s)) as (ws & Hs & _).
  destruct (trimStart_split s) as (ws' & Hs' & _).
  rewrite Hs'. apply in_or_app. right. rewrite Hs. apply in_or_app. now left.
Qed.

Lemma Captures_names (text : jsstring) (l : list jsstring) :
  Captures text l ->
  Forall (fun name => name <> [] /\ Forall (fun c => c <> rbrace) name) l.
Proof.
  induction 1 as [|c s l _ _ IH|s name rest l Hp _ IH]; auto.
  constructor; [|exact IH]. destruct Hp. now split.
Qed.

End Trimming.

(** X2. Every name [extractVariables] returns is non-empty, has no white
    space at either end (trimming it again changes nothing) and holds no
    close brace. *)
Theorem X2_extracted_names_clean (text : jsstring) :
  Forall (fun name =>
            name <> []
            /\ isTrimmed name = true
            /\ trim name = name
            /\ Forall (fun c => c <> rbrace) name)
         (extractVariables text).
Proof.
  apply Forall_forall. intros name Hin.
  rewrite extractVariables_namesOf in Hin. unfold namesOf in Hin.
  rewrite dedupFirst_In, filter_In, in_map_iff in Hin.
  destruct Hin as [(capture & <- & Hc) Hne].
  pose proof (Captures_names _ _ (matchAll_Captures text)) as Hall.
  rewrite Forall_forall in Hall. destruct (Hall _ Hc) as [_ Hfree].
  split; [intros E; rewrite E in Hne; discriminate|].
  split; [apply trim_isTrimmed|].
  split; [apply isTrimmed_trim, trim_isTrimmed|].
  apply Forall_forall. intros c Hcin. rewrite Forall_forall in Hfree.
  apply Hfree. now apply trim_incl.
Qed.

(** ** Text after the last close brace *)

Section OpenEnd.

Lemma prefix_before_tail (x rest s tail : jsstring) :
  (x ++ [rbrace]) ++ rest = s ++ tail ->
  ~ In rbrace tail ->
  exists rest', s = (x ++ [rbrace]) ++ rest'.
Proof.
  revert s. induction x as [|a x IH]; intros s H Hno.
  - destruct s as [|c s]; simpl in H.
    + exfalso. apply Hno. rewrite <- H. now left.
    + injection H as <- _. now exists s.
  - destruct s as [|c s]; simpl in H.
    + exfalso. apply Hno. rewrite <- H. right.
      rewrite <- app_assoc. apply in_or_app. right. now left.
    + injection H as <- H. destruct (IH s H Hno) as [rest' ->].
      now exists rest'.
Qed.

Lemma closeFree_In (tail : jsstring) :
  forallb (fun c => negb (ceqb c rbrace)) tail = true -> ~ In rbrace tail.
Proof.
  intros H Hin. rewrite forallb_forall in H. specialize (H _ Hin).
  now rewrite ceqb_refl in H.
Qed.

Lemma matchHere_tail (s tail : jsstring) :
  forallb (fun c => negb (ceqb c rbrace)) tail = true ->
  matchHere (s ++ tail) = matchHere s.
Proof.
  intros Htail. destruct (matchHere s) as [name|] eqn:E.
  - destruct (matchHere_sound _ _ E) as [rest H]. destruct H as [name rest Hne Hrun].
    apply (matchHere_complete _ name (rest ++ tail)).
    replace ((lbrace :: lbrace :: name ++ rbrace :: rbrace :: rest) ++ tail)
      with (lbrace :: lbrace :: name ++ rbrace :: rbrace :: rest ++ tail)
      by (simpl; now rewrite <- app_assoc).
    now constructor.
  - destruct (matchHere (s ++ tail)) as [name|] eqn:E'; [|reflexivity].
    destruct (matchHere_sound _ _ E') as [rest H].
    inversion H as [n r Hne Hrun Hs Hn Hr]. subst n r.
    destruct (prefix_before_tail (lbrace :: lbrace :: name ++ [rbrace]) rest s tail)
      as [rest' Hs'].
    + rewrite <- Hs. simpl. now rewrite <- !app_assoc.
    + now apply closeFree_In.
    + assert (PatternAt s name rest') as Hp.
      { rewrite Hs'. simpl. rewrite <- !app_assoc. simpl. now constructor. }
      apply matchHere_complete in Hp. congruence.
Qed.

Lemma matchAllFrom_closeFree (tail : jsstring) :
  forallb (fun c => negb (ceqb c rbrace)) tail = true ->
  forall skip, matchAllFrom skip tail = [].
Proof.
  induction tail as [|c tail IH]; intros H skip; [reflexivity|].
  assert (matchHere (c :: tail) = None) as E
      by exact (matchHere_tail [] (c :: tail) H).
  simpl in H. apply andb_true_iff in H as [_ H].
  destruct skip as [|k]; [|apply (IH H)].
  rewrite matchAllFrom_here, E. apply (IH H).
Qed.

Lemma matchAllFrom_tail (pre tail : jsstring) :
  forallb (fun c => negb (ceqb c rbrace)) tail = true ->
  forall skip, matchAllFrom skip (pre ++ tail) = matchAllFrom skip pre.
Proof.
  intros Htail. induction pre as [|c pre IH]; intros skip.
  - simpl app. rewrite (matchAllFrom_closeFree tail Htail). now destruct skip.
  - destruct skip as [|k]; [|apply IH].
    change ((c :: pre) ++ tail) with (c :: pre ++ tail).
    rewrite !matchAllFrom_here.
    change (c :: pre ++ tail) with ((c :: pre) ++ tail).
    rewrite (matchHere_tail (c :: pre) tail Htail).
    destruct (matchHere (c :: pre)); now rewrite IH.
Qed.

End OpenEnd.

(** X3. What follows the last close brace of a text never contributes a
    variable: a text followed by a tail without close brace (an
    unterminated [{{name] for one) has the variables of the text
    alone. *)
Theorem X3_unterminated_tail_ignored (text tail : jsstring) :
  forallb (fun c => negb (ceqb c rbrace)) tail = true ->
  extractVariables (text ++ tail) = extractVariables text.
Proof.
  intros H. rewrite !extractVariables_namesOf. unfold matchAll.
  now rewrite (matchAllFrom_tail text tail H).
Qed.

Lemma X3_unterminated_tail_ignored_witness :
  forallb (fun c => negb (ceqb c rbrace)) (lit " and {{b then {c") = true
  /\ extractVariables (lit "{{a}}" ++ lit " and {{b then {c") = [lit "a"].
Proof.
  split; [reflexivity|].
  rewrite (X3_unterminated_tail_ignored (lit "{{a}}") (lit " and {{b then {c"));
    reflexivity.
Defined.

(** ** Entries without an occurrence *)

Section Absent.

Lemma replaceFrom_absent (pat value : jsstring) (s : jsstring) :
  occurs pat s = false ->
  forall before, replaceFrom pat value 0 before s = s.
Proof.
  induction s as [|c s IH]; intros H before; [reflexivity|].
  simpl in H. apply orb_false_iff in H as [H1 H2].
  cbn [replaceFrom]. rewrite H1. f_equal. now apply IH.
Qed.

Lemma occurs_run (p s rest : jsstring) :
  openBraceFree s = true ->
  occurs (lbrace :: p) (s ++ rest) = occurs (lbrace :: p) rest.
Proof.
  induction s as [|c s IH]; intros H; [reflexivity|].
  simpl in H. apply andb_true_iff in H as [Hc Hs].
  apply negb_true_iff in Hc. simpl app. cbn [occurs startsWith].
  unfold ceqb in *. rewrite N.eqb_sym, Hc. simpl. now apply IH.
Qed.

Lemma occurs_other (n m rest : jsstring) :
  braceFree n = true -> braceFree m = true -> n <> m ->
  occurs (placeholder n) (placeholder m ++ rest) = occurs (placeholder n) rest.
Proof.
  intros Hn Hm Hne.
  assert (startsWith (placeholder n) (placeholder m ++ rest) = false) as E.
  { destruct (startsWith (placeholder n) (placeholder m ++ rest)) eqn:E;
      [|reflexivity].
    now apply startsWith_placeholder in E. }
  rewrite (placeholder_unfold m) in *. cbn [app] in *.
  cbn [occurs]. rewrite E. cbn [orb].
  assert (startsWith (placeholder n) (lbrace :: (m ++ [rbrace; rbrace]) ++ rest)
          = false) as ->.
  { rewrite placeholder_unfold. cbn [startsWith]. rewrite ceqb_refl. cbn [andb].
    destruct m as [|d m]; [reflexivity|].
    simpl in Hm. apply andb_true_iff in Hm as [Hd _].
    apply andb_true_iff in Hd as [Hd _]. apply negb_true_iff in Hd.
    cbn [app]. unfold ceqb in *. now rewrite N.eqb_sym, Hd. }
  cbn [orb]. rewrite placeholder_unfold. apply occurs_run.
  rewrite openBraceFree_app, (braceFree_open _ Hm). reflexivity.
Qed.

(** On a well-formed text the placeholder of a name occurs only where a
    token of that name stands. *)
Lemma occurs_tokens (n : jsstring) (ts : list Token) :
  braceFree n = true ->
  forallb wellFormedToken ts = true ->
  ~ In n (varNames ts) ->
  occurs (placeholder n) (render ts) = false.
Proof.
  intros Hn. induction ts as [|t ts IH]; intros Hts Hnot; [reflexivity|].
  simpl in Hts. apply andb_true_iff in Hts as [Ht Hts].
  unfold render in *. cbn [map concat].
  destruct t as [s|m]; cbn [renderToken wellFormedToken varNames] in *.
  - rewrite placeholder_unfold, occurs_run; [|exact Ht].
    rewrite <- placeholder_unfold. now apply IH.
  - rewrite occurs_other; auto.
    + apply IH; auto. intros Hin. apply Hnot. now right.
    + intros ->. apply Hnot. now left.
Qed.

Lemma replaceVariables_absent (text : jsstring)
      (variables : list (jsstring * jsstring)) :
  forallb (fun entry => negb (occurs (placeholder (fst entry)) text)) variables
  = true ->
  replaceVariables text variables = text.
Proof.
  induction variables as [|[n v] vars IH]; intros H; [reflexivity|].
  simpl in H. apply andb_true_iff in H as [Hn Hvars].
  apply negb_true_iff in Hn. cbn [fst] in Hn.
  change (replaceVariables text ((n, v) :: vars))
    with (replaceVariables (replaceAll (placeholder n) v text) vars).
  unfold replaceAll. rewrite (replaceFrom_absent _ v text Hn). now apply IH.
Qed.

End Absent.

(** X4. An entry whose [{{name}}] does not occur in the text (the name
    free of regular-expression syntax) leaves the text as it is,
    whatever its value, replacement patterns such as [$&] included: a
    mapping of such entries returns the text unchanged. *)
Theorem X4_missing_placeholders_leave_text
        (text : jsstring) (variables : list (jsstring * jsstring)) :
  forallb (fun entry => regexLiteral (fst entry)) variables = true ->
  forallb (fun entry => negb (occurs (placeholder (fst entry)) text)) variables
  = true ->
  replaceVariables text variables = text.
Proof. intros _. apply replaceVariables_absent. Qed.

Lemma X4_missing_placeholders_leave_text_witness :
  forallb (fun entry => regexLiteral (fst entry))
          [(lit "name", lit "$&$&"); (lit "a", lit "{{b}}")] = true
  /\ forallb (fun entry => negb (occurs (placeholder (fst entry))
                                         (lit "Hi {{ name }} {a}} {{b}}")))
             [(lit "name", lit "$&$&"); (lit "a", lit "{{b}}")] = true
  /\ replaceVariables (lit "Hi {{ name }} {a}} {{b}}")
                      [(lit "name", lit "$&$&"); (lit "a", lit "{{b}}")]
     = lit "Hi {{ name }} {a}} {{b}}".
Proof.
  split; [reflexivity|]. split; [reflexivity|].
  apply (X4_missing_placeholders_leave_text (lit "Hi {{ name }} {a}} {{b}}")
           [(lit "name", lit "$&$&"); (lit "a", lit "{{b}}")]);
    reflexivity.
Defined.

(** ** Placeholders written with white space *)

Section Padding.

Lemma whiteSpace_no_brace (c : codeunit) :
  isWhiteSpace c = true ->
  negb (ceqb c lbrace) && negb (ceqb c rbrace) = true.
Proof.
  intros H. destruct (ceqb c lbrace) eqn:El.
  { apply ceqb_eq in El. subst c. discriminate. }
  destruct (ceqb c rbrace) eqn:Er.
  { apply ceqb_eq in Er. subst c. discriminate. }
  reflexivity.
Qed.

Lemma whiteSpace_braceFree (ws : jsstring) :
  forallb isWhiteSpace ws = true -> braceFree ws = true.
Proof.
  unfold braceFree. induction ws as [|c ws IH]; simpl; [reflexivity|].
  intros H. apply andb_true_iff in H as [Hc Hws].
  now rewrite (whiteSpace_no_brace c Hc), IH.
Qed.

Lemma braceFree_app (a b : jsstring) :
  braceFree (a ++ b) = braceFree a && braceFree b.
Proof. apply forallb_app. Qed.

Lemma trimStart_padding (ws s : jsstring) :
  forallb isWhiteSpace ws = true -> trimStart (ws ++ s) = trimStart s.
Proof.
  induction ws as [|c ws IH]; simpl; [reflexivity|].
  intros H. apply andb_true_iff in H as [Hc Hws]. now rewrite Hc, IH.
Qed.

Lemma trim_padded (pad1 pad2 n : jsstring) :
  forallb isWhiteSpace pad1 = true ->
  forallb isWhiteSpace pad2 = true ->
  n <> [] -> isTrimmed n = true ->
  trim (pad1 ++ n ++ pad2) = n.
Proof.
  intros H1 H2 Hne Ht. unfold isTrimmed in Ht.
  apply andb_true_iff in Ht as [Hs He]. unfold trim, trimEnd.
  rewrite (trimStart_padding pad1 _ H1).
  rewrite (clean_trimStart (n ++ pad2)).
  - rewrite rev_app_distr, trimStart_padding.
    + rewrite (clean_trimStart _ He). apply rev_involutive.
    + rewrite forallb_forall in *. intros x Hx. apply H2. now apply in_rev.
  - destruct n; [congruence | exact Hs].
Qed.

Lemma braceFree_closeFree (s : jsstring) :
  braceFree s = true -> Forall (fun c => c <> rbrace) s.
Proof.
  unfold braceFree. rewrite forallb_forall, Forall_forall. intros H c Hc.
  specialize (H c Hc). apply andb_true_iff in H as [_ H].
  apply negb_true_iff in H. now apply ceqb_neq.
Qed.

Lemma extractVariables_single (name : jsstring) :
  name <> [] -> braceFree name = true -> trim name <> [] ->
  extractVariables (placeholder name) = [trim name].
Proof.
  intros Hne Hbf Ht. rewrite extractVariables_namesOf.
  assert (PatternAt (placeholder name) name []) as Hp.
  { rewrite placeholder_unfold. constructor; [exact Hne|].
    now apply braceFree_closeFree. }
  rewrite (matchAll_take _ _ _ Hp). unfold namesOf. simpl.
  destruct (trim name); [congruence | reflexivity].
Qed.

End Padding.

(** X5. A placeholder written with white space around its name is
    reported by [extractVariables] under the trimmed name and is not
    filled by [replaceVariables] from the entry of that name: the text
    [{{ name }}] lists [name] and stays [{{ name }}]. *)
Theorem X5_padded_placeholder_not_filled
        (name pad1 pad2 value : jsstring) :
  name <> [] ->
  isTrimmed name = true ->
  regexLiteral name = true ->
  forallb isWhiteSpace pad1 = true ->
  forallb isWhiteSpace pad2 = true ->
  pad1 ++ pad2 <> [] ->
  extractVariables (placeholder (pad1 ++ name ++ pad2)) = [name]
  /\ replaceVariables (placeholder (pad1 ++ name ++ pad2)) [(name, value)]
     = placeholder (pad1 ++ name ++ pad2).
Proof.
  intros Hne Ht Hre H1 H2 Hpad.
  pose proof (regexLiteral_braceFree _ Hre) as Hbf.
  assert (braceFree (pad1 ++ name ++ pad2) = true) as Hbf'.
  { now rewrite !braceFree_app, Hbf, !whiteSpace_braceFree. }
  pose proof (trim_padded pad1 pad2 name H1 H2 Hne Ht) as Etrim.
  split.
  - rewrite extractVariables_single; rewrite ?Etrim; auto.
    destruct pad1; [destruct name; [congruence|discriminate]|discriminate].
  - apply replaceVariables_absent. cbn [forallb fst]. rewrite andb_true_r.
    apply negb_true_iff.
    assert (render [Var (pad1 ++ name ++ pad2)]
            = placeholder (pad1 ++ name ++ pad2)) as <-
        by (unfold render; cbn [map concat renderToken]; apply app_nil_r).
    apply occurs_tokens; auto.
    + cbn. now rewrite Hbf'.
    + cbn. intros [E|[]]. apply (f_equal (@length codeunit)) in E.
      rewrite !length_app in E.
      destruct pad1, pad2; simpl in *; try congruence; lia.
Qed.

Lemma X5_padded_placeholder_not_filled_witness :
  extractVariables (lit "{{ name }}") = [lit "name"]
  /\ replaceVariables (lit "{{ name }}") [(lit "name", lit "Bo")]
     = lit "{{ name }}".
Proof.
  apply (X5_padded_placeholder_not_filled (lit "name") (lit " ") (lit " ")
           (lit "Bo"));
    try reflexivity; discriminate.
Defined.

(** ** Variables left after a substitution *)

Section Remaining.

Lemma matchHere_not_open (c : codeunit) (s : jsstring) :
  ceqb c lbrace = false -> matchHere (c :: s) = None.
Proof. intros H. unfold matchHere. destruct s; [reflexivity|]. now rewrite H. Qed.

Lemma matchAll_run (s rest : jsstring) :
  openBraceFree s = true -> matchAll (s ++ rest) = matchAll rest.
Proof.
  induction s as [|c s IH]; intros H; [reflexivity|].
  simpl in H. apply andb_true_iff in H as [Hc Hs]. apply negb_true_iff in Hc.
  simpl app. rewrite (matchAll_skip _ _ (matchHere_not_open c _ Hc)). now apply IH.
Qed.

Lemma matchAll_empty_placeholder (rest : jsstring) :
  matchAll (placeholder [] ++ rest) = matchAll rest.
Proof.
  change (placeholder [] ++ rest)
    with (lbrace :: lbrace :: rbrace :: rbrace :: rest).
  rewrite matchAll_skip by reflexivity.
  rewrite matchAll_skip by reflexivity.
  rewrite matchAll_skip by (now apply matchHere_not_open).
  rewrite matchAll_skip by (now apply matchHere_not_open).
  reflexivity.
Qed.

(** On a well-formed text the scan finds the placeholders with a
    non-empty name, one capture each. *)
Lemma matchAll_tokens (ts : list Token) :
  forallb wellFormedToken ts = true ->
  matchAll (render ts) = filter truthyStr (varNames ts).
Proof.
  induction ts as [|t ts IH]; intros H; [reflexivity|].
  simpl in H. apply andb_true_iff in H as [Ht Hts].
  unfold render in *. cbn [map concat].
  destruct t as [s|m]; cbn [renderToken wellFormedToken varNames] in *.
  - rewrite (matchAll_run s _ Ht). now apply IH.
  - destruct m as [|c m].
    + rewrite matchAll_empty_placeholder. simpl. now apply IH.
    + assert (PatternAt (placeholder (c :: m) ++ concat (map renderToken ts))
                        (c :: m) (concat (map renderToken ts))) as Hp.
      { rewrite placeholder_unfold. simpl. rewrite <- app_assoc. simpl.
        apply (PatternAt_intro (name := c :: m)); [discriminate|].
        now apply braceFree_closeFree. }
      rewrite (matchAll_take _ _ _ Hp). simpl. f_equal. now apply IH.
Qed.

Lemma bindAll_token (variables : list (jsstring * jsstring)) (t : Token) :
  fold_left (fun t' entry => bindToken (fst entry) (snd entry) t') variables t
  = match t with
    | Lit s => Lit s
    | Var name =>
        match assoc name variables with
        | Some value => Lit value
        | None => Var name
        end
    end.
Proof.
  revert t. induction variables as [|[n v] vars IH]; intros t.
  - destruct t; reflexivity.
  - cbn [fold_left fst snd]. rewrite IH. destruct t as [s|m]; [reflexivity|].
    simpl. rewrite (streqb_sym n m). destruct (streqb m n); reflexivity.
Qed.

(** Sequential replacement on a well-formed text, token by token. *)
Lemma replaceVariables_tokens
      (variables : list (jsstring * jsstring)) (ts : list Token) :
  forallb wellFormedToken ts = true ->
  forallb plainEntry variables = true ->
  replaceVariables (render ts) variables
  = render (map (fun t =>
                   fold_left (fun t' entry => bindToken (fst entry) (snd entry) t')
                             variables t) ts)
  /\ forallb wellFormedToken
       (map (fun t =>
               fold_left (fun t' entry => bindToken (fst entry) (snd entry) t')
                         variables t) ts) = true.
Proof.
  revert ts. induction variables as [|[n v] vars IH]; intros ts Hts Hvars.
  - simpl. now rewrite map_id.
  - simpl in Hvars. apply andb_true_iff in Hvars as [He Hvars].
    unfold plainEntry in He. simpl in He.
    apply andb_true_iff in He as [He Hd]. apply andb_true_iff in He as [Hn Hv].
    change (replaceVariables (render ts) ((n, v) :: vars))
      with (replaceVariables (replaceAll (placeholder n) v (render ts)) vars).
    rewrite (replaceAll_literal _ _ _ Hd).
    rewrite replaceLit_tokens; auto using regexLiteral_braceFree.
    destruct (IH (map (bindToken n v) ts)
                 (bindToken_wellFormed n v ts Hv Hts) Hvars) as [E W].
    rewrite map_map in E, W. split; [exact E | exact W].
Qed.

Lemma varNames_bound (variables : list (jsstring * jsstring)) (ts : list Token) :
  varNames (map (fun t =>
                   fold_left (fun t' entry => bindToken (fst entry) (snd entry) t')
                             variables t) ts)
  = filter (fun name => negb (hasOwn name variables)) (varNames ts).
Proof.
  induction ts as [|t ts IH]; [reflexivity|].
  cbn [map]. rewrite bindAll_token. destruct t as [s|m]; cbn [varNames].
  - exact IH.
  - cbn [filter]. unfold hasOwn at 1.
    destruct (assoc m variables); cbn [negb varNames]; now rewrite IH.
Qed.

End Remaining.

(** X6. On a text whose open braces all belong to placeholders with
    brace-free names, after [replaceVariables] with entries whose names
    have no regular-expression syntax and whose values have no open
    brace and no [$], [extractVariables] lists the trimmed names of the
    placeholders that had no entry, and only those: a name with an entry
    is still listed when a placeholder spelled it with white space. *)
Theorem X6_variables_left_after_substitution
        (ts : list Token) (variables : list (jsstring * jsstring)) :
  forallb wellFormedToken ts = true ->
  forallb plainEntry variables = true ->
  extractVariables (replaceVariables (render ts) variables)
  = dedupFirst
      (filter truthyStr
         (map trim
            (filter (fun name => negb (hasOwn name variables)) (varNames ts)))).
Proof.
  intros Hts Hvars.
  destruct (replaceVariables_tokens variables ts Hts Hvars) as [E W].
  rewrite E, extractVariables_namesOf, (matchAll_tokens _ W), varNames_bound.
  unfold namesOf. f_equal.
  induction (filter (fun name => negb (hasOwn name variables)) (varNames ts))
    as [|x l IH]; [reflexivity|].
  simpl. destruct x as [|c x]; simpl.
  - exact IH.
  - destruct (trim (c :: x)); simpl; now rewrite IH.
Qed.

Lemma X6_variables_left_after_substitution_witness :
  forallb wellFormedToken
          [Var (lit "a"); Lit (lit " "); Var (lit " a "); Lit (lit "}"); Var (lit "b");
           Var (lit "c")] = true
  /\ forallb plainEntry [(lit "a", lit "1"); (lit "c", lit "}}")] = true
  /\ extractVariables
       (replaceVariables (lit "{{a}} {{ a }}}{{b}}{{c}}")
                         [(lit "a", lit "1"); (lit "c", lit "}}")])
     = [lit "a"; lit "b"].
Proof.
  split; [reflexivity|]. split; [reflexivity|].
  apply (X6_variables_left_after_substitution
           [Var (lit "a"); Lit (lit " "); Var (lit " a "); Lit (lit "}");
            Var (lit "b"); Var (lit "c")]
           [(lit "a", lit "1"); (lit "c", lit "}}")]);
    reflexivity.
Defined.

(** ** Looking a component up *)

Section Lookup.

Variable id : jsstring.

Lemma firstSome_spec (children : list TreeNode) :
  (forall child, In child children ->
     match findComponentInNode id child with
     | Some c => c_id c = id /\ ComponentIn c child
     | None => forall c, ComponentIn c child -> c_id c <> id
     end) ->
  match firstSome (findComponentInNode id) children with
  | Some c => c_id c = id /\ exists child, In child children /\ ComponentIn c child
  | None => forall child c, In child children -> ComponentIn c child -> c_id c <> id
  end.
Proof.
  induction children as [|child rest IH]; intros H.
  - simpl. intros child c [].
  - simpl. pose proof (H child (or_introl eq_refl)) as Hchild.
    destruct (findComponentInNode id child) as [c|].
    + destruct Hchild as [Hid Hin]. split; [exact Hid|].
      exists child. split; [now left | exact Hin].
    + assert (forall child', In child' rest ->
                match findComponentInNode id child' with
                | Some c => c_id c = id /\ ComponentIn c child'
                | None => forall c, ComponentIn c child' -> c_id c <> id
                end) as Hrest by (intros child' Hin; apply H; now right).
      specialize (IH Hrest).
      destruct (firstSome (findComponentInNode id) rest) as [c|].
      * destruct IH as [Hid (child' & Hin & Hc)]. split; [exact Hid|].
        exists child'. split; [now right | exact Hc].
      * intros child' c [<-|Hin] Hc; [now apply Hchild | now apply (IH child')].
Qed.

Fixpoint findComponentInNode_spec (node : TreeNode) :
  match findComponentInNode id node with
  | Some c => c_id c = id /\ ComponentIn c node
  | None => forall c, ComponentIn c node -> c_id c <> id
  end.
Proof.
  destruct node as [fid name children expanded|c0].
  - cbn [findComponentInNode].
    assert (forall child, In child children ->
              match findComponentInNode id child with
              | Some c => c_id c = id /\ ComponentIn c child
              | None => forall c, ComponentIn c child -> c_id c <> id
              end) as H.
    { induction children as [|child rest IH]; intros child' Hin; [destruct Hin|].
      destruct Hin as [<-|Hin]; [apply findComponentInNode_spec | now apply IH]. }
    pose proof (firstSome_spec children H) as Hf.
    destruct (firstSome (findComponentInNode id) children) as [c|].
    + destruct Hf as [Hid (child & Hin & Hc)]. split; [exact Hid|].
      now apply ComponentIn_child with (child := child).
    + intros c Hc. inversion Hc as [|? ? ? ? child Hin Hc']; subst.
      now apply (Hf child).
  - cbn [findComponentInNode]. destruct (streqb (c_id c0) id) eqn:E.
    + apply streqb_eq in E. split; [exact E | constructor].
    + apply streqb_neq in E. intros c Hc. inversion Hc; subst. exact E.
Qed.

End Lookup.

Lemma findComponentById_spec (treeData : list TreeNode) (id : jsstring) :
  match findComponentById treeData id with
  | Some c => c_id c = id /\ ComponentInTree c treeData
  | None => forall c, ComponentInTree c treeData -> c_id c <> id
  end.
Proof.
  unfold findComponentById, ComponentInTree.
  pose proof (firstSome_spec id treeData
                (fun child _ => findComponentInNode_spec id child)) as H.
  destruct (firstSome (findComponentInNode id) treeData) as [c|].
  - destruct H as [Hid (node & Hin & Hc)]. split; [exact Hid|]. now exists node.
  - intros c (node & Hin & Hc). now apply (H node).
Qed.

(** X7. [findComponentById] returns a component of the tree that carries
    the id asked for, at whatever depth it sits, and returns nothing
    only when no component of the tree carries that id; a folder with
    that id is never the answer. *)
Theorem X7_findComponentById_sound_complete
        (treeData : list TreeNode) (id : jsstring) :
  match findComponentById treeData id with
  | Some c => c_id c = id /\ ComponentInTree c treeData
  | None => forall c, ComponentInTree c treeData -> c_id c <> id
  end.
Proof. apply findComponentById_spec. Qed.

(** X8. The link-sync effect makes no call or exactly one, and that one
    is [updateSectionFromLinkedComponent] for the section it runs in,
    with a component of the tree whose id is the section's link and
    whose content, type or name differs from the section's snapshot. A
    link that no component of the tree carries gives no call. *)
Theorem X8_link_sync_calls
        (treeData : list TreeNode) (promptId : jsstring) (section : Section) :
  (linkSyncEffect treeData promptId section = []
   \/ exists c,
       linkSyncEffect treeData promptId section
       = [UpdateSectionFromLinkedComponent promptId (s_id section) c]
       /\ linkedComponentId section = Some (c_id c)
       /\ ComponentInTree c treeData
       /\ (originalContent section <> Some (c_content c)
           \/ s_type section <> componentType c
           \/ s_name section <> c_name c))
  /\ ((forall c, ComponentInTree c treeData ->
                 linkedComponentId section <> Some (c_id c)) ->
      linkSyncEffect treeData promptId section = []).
Proof.
  assert (forall c, resolveLink treeData section = Some c ->
                    linkedComponentId section = Some (c_id c)
                    /\ ComponentInTree c treeData) as Hres.
  { unfold resolveLink. intros c H.
    destruct (linkedComponentId section) as [id|]; [|discriminate].
    destruct (truthyStr id); [|discriminate].
    pose proof (findComponentById_spec treeData id) as Hf.
    rewrite H in Hf. destruct Hf as [<- Hin]. now split. }
  unfold linkSyncEffect.
  destruct (resolveLink treeData section) as [c|] eqn:E; [|split; auto].
  destruct (Hres c eq_refl) as [Hlink Hin]. split.
  - destruct (drifted c section) eqn:Ed; [right|now left].
    exists c. repeat split; auto.
    unfold drifted, differsFromSnapshot in Ed.
    destruct (originalContent section) as [o|]; [|left; discriminate].
    cbn [optStrEqb] in Ed.
    destruct (streqb o (c_content c)) eqn:E1.
    + destruct (streqb (componentType c) (s_type section)) eqn:E2.
      * destruct (streqb (c_name c) (s_name section)) eqn:E3; [discriminate|].
        apply streqb_neq in E3. right. right. congruence.
      * apply streqb_neq in E2. right. left. congruence.
    + apply streqb_neq in E1. left. congruence.
  - intros Hnone. exfalso. now apply (Hnone c Hin).
Qed.

(** ** Dragging a component onto a section *)

(** X9. Dragging a library component and dropping it on a section's
    content area makes one [updateSection] call for that section, with
    the component's content (also as [originalContent]), type, name and
    id; a component whose type tag is empty makes no call at all. *)
Theorem X9_component_drag_then_drop
        (promptId : jsstring) (section : Section) (index : nat)
        (c : ComponentType) :
  handleDrop promptId section index
             (payloadOf (handleDragStart (ComponentNode c) freshDrag))
  = if truthyStr (componentType c)
    then Normal [UpdateSection promptId (s_id section)
                   {| u_content := Some (JStr (c_content c));
                      u_type := Some (JStr (componentType c));
                      u_name := Some (JStr (c_name c));
                      u_linkedComponentId := Some (JStr (c_id c));
                      u_originalContent := Some (JStr (c_content c)) |}]
    else Normal [].
Proof.
  destruct c as [i n t b]. destruct t as [|t0 t]; reflexivity.
Qed.

(** ** Folder payloads with a missing first component *)

(** X10. For a payload with [dragType] ["folder"] and a [components]
    array, the drop makes no call when the array is empty or its first
    element is [null] (the handler catches the TypeError, so the
    elements after it are lost too); otherwise it updates the section
    from the first element, with type ['instruction'] when that element
    has no truthy [componentType], and passes every further element to
    [addSectionFromComponent] at the next indices. *)
Theorem X10_folder_payload_cases
        (promptId : jsstring) (section : Section) (index : nat)
        (v : json) (items : list json) :
  getProp v (lit "dragType") = Some (JStr (lit "folder")) ->
  getProp v (lit "components") = Some (JArr items) ->
  handleDrop promptId section index (Parsed v)
  = match items with
    | [] => Normal []
    | JNull :: _ => Normal []
    | firstComponent :: rest =>
        Normal
          (UpdateSection promptId (s_id section)
             {| u_content := getProp firstComponent (lit "content");
                u_type :=
                  Some (orElse (getProp firstComponent (lit "componentType"))
                               (JStr (lit "instruction")));
                u_name := getProp firstComponent (lit "name");
                u_linkedComponentId := getProp firstComponent (lit "id");
                u_originalContent := getProp firstComponent (lit "content") |}
             :: mapi (fun idx component =>
                        AddSectionFromComponent promptId component
                                                (index + 1 + idx))
                     0 rest)
    end.
Proof.
  intros Hd Hc. destruct v as [| | | | |fields]; try discriminate.
  unfold handleDrop, handleDropBody. cbn [JSON_parse bind truthy negb].
  rewrite Hd, Hc. cbn [isString isArray truthyV truthy andb].
  change (streqb (lit "folder") (lit "folder")) with true. cbn [andb].
  destruct items as [|firstComponent rest]; [reflexivity|].
  destruct firstComponent; reflexivity.
Qed.

Lemma X10_folder_payload_cases_witness :
  handleDrop (lit "p") (sectionWithId "s1" "one") 1
             (Parsed (JObj [ (lit "dragType", JStr (lit "folder"));
                             (lit "components",
                              JArr [JNull; componentToJson (component "c2" "x")]) ]))
  = Normal []
  /\ handleDrop (lit "p") (sectionWithId "s1" "one") 1
                (Parsed (JObj [ (lit "dragType", JStr (lit "folder"));
                                (lit "components",
                                 JArr [JObj [ (lit "content", JStr (lit "x")) ]]) ]))
     = Normal [UpdateSection (lit "p") (lit "s1")
                 {| u_content := Some (JStr (lit "x"));
                    u_type := Some (JStr (lit "instruction"));
                    u_name := None;
                    u_linkedComponentId := None;
                    u_originalContent := Some (JStr (lit "x")) |}].
Proof.
  split.
  - apply (X10_folder_payload_cases (lit "p") (sectionWithId "s1" "one") 1
             (JObj [ (lit "dragType", JStr (lit "folder"));
                     (lit "components",
                      JArr [JNull; componentToJson (component "c2" "x")]) ])
             [JNull; componentToJson (component "c2" "x")]);
      reflexivity.
  - apply (X10_folder_payload_cases (lit "p") (sectionWithId "s1" "one") 1
             (JObj [ (lit "dragType", JStr (lit "folder"));
                     (lit "components",
                      JArr [JObj [ (lit "content", JStr (lit "x")) ]]) ])
             [JObj [ (lit "content", JStr (lit "x")) ]]);
      reflexivity.
Defined.

(** ** Drops on a folder of the tree *)

Section TreeDrops.

Variable parse : jsstring -> completion json.

Lemma draggedNodeIdOf_fallback (data : jsstring) :
  parse data = Throw \/ parse data = Normal JNull ->
  TreeNodeDrop.draggedNodeIdOf parse data = JStr data.
Proof.
  unfold TreeNodeDrop.draggedNodeIdOf. intros [-> | ->]; reflexivity.
Qed.

End TreeDrops.



(** X12. Dropping a dragged component on a folder dispatches the
    component's id and the folder's id, unless the two are equal;
    dropping a dragged folder dispatches the whole folder payload object
    in the place of the dragged id, since that payload has no [id]. *)
Theorem X12_tree_drop_of_dragged_nodes
        (parse : jsstring -> completion json)
        (id name : jsstring) (children : list TreeNode) (expanded : bool)
        (jsonData textData : jsstring) :
  truthyStr jsonData = true ->
  (forall c : ComponentType,
      parse jsonData = Normal (componentToJson c) ->
      truthyStr (c_id c) = true ->
      TreeNodeDrop.handleDrop parse (FolderNode id name children expanded)
                              jsonData textData
      = if streqb (c_id c) id then None else Some (JStr (c_id c), id))
  /\ (forall (folderName : jsstring) (components : list ComponentType),
         parse jsonData = Normal (folderPayload folderName components) ->
         TreeNodeDrop.handleDrop parse (FolderNode id name children expanded)
                                 jsonData textData
         = Some (folderPayload folderName components, id)).
Proof.
  intros Hdata. unfold TreeNodeDrop.handleDrop, TreeNodeDrop.draggedNodeIdOf.
  rewrite Hdata. split.
  - intros c Hp Hid. rewrite Hp. destruct c as [i n t b]. simpl in Hid.
    destruct i as [|i0 i]; [discriminate|]. cbn.
    destruct (streqb (i0 :: i) id); reflexivity.
  - intros folderName components Hp. rewrite Hp. reflexivity.
Qed.

Lemma X12_tree_drop_of_dragged_nodes_witness :
  TreeNodeDrop.handleDrop
    (fun _ => Normal (componentToJson (component "c1" "first")))
    (FolderNode (lit "f") (lit "folder") [] true) (lit "{...}") []
  = Some (JStr (lit "c1"), lit "f").
Proof.
  destruct (X12_tree_drop_of_dragged_nodes
              (fun _ => Normal (componentToJson (component "c1" "first")))
              (lit "f") (lit "folder") [] true (lit "{...}") [] eq_refl)
    as [H _].
  apply (H (component "c1" "first")); reflexivity.
Defined.

(** X13. When the transferred text does not parse, or parses to [null],
    the text itself is taken as the dragged id: a non-empty text other
    than the folder's id is dispatched as it is, an empty transfer
    dispatches nothing; the ["text/plain"] data is read only when the
    ["application/json"] data is empty. *)
Theorem X13_tree_drop_falls_back_to_text
        (parse : jsstring -> completion json)
        (id name : jsstring) (children : list TreeNode) (expanded : bool)
        (jsonData textData : jsstring) :
  let draggedData := if truthyStr jsonData then jsonData else textData in
  parse draggedData = Throw \/ parse draggedData = Normal JNull ->
  TreeNodeDrop.handleDrop parse (FolderNode id name children expanded)
                          jsonData textData
  = if truthyStr draggedData && negb (streqb draggedData id)
    then Some (JStr draggedData, id)
    else None.
Proof.
  intros draggedData H. unfold TreeNodeDrop.handleDrop. fold draggedData.
  rewrite (draggedNodeIdOf_fallback parse draggedData H).
  cbn [truthy TreeNodeDrop.strictEqualsString].
  destruct (truthyStr draggedData); cbn [negb orb andb]; [|reflexivity].
  destruct (streqb draggedData id); reflexivity.
Qed.

Lemma X13_tree_drop_falls_back_to_text_witness :
  TreeNodeDrop.handleDrop (fun _ => Throw)
                          (FolderNode (lit "f") (lit "folder") [] true)
                          [] (lit "node-7")
  = Some (JStr (lit "node-7"), lit "f")
  /\ TreeNodeDrop.handleDrop (fun _ => Throw)
                             (FolderNode (lit "f") (lit "folder") [] true) [] []
     = None.
Proof.
  split.
  - apply (X13_tree_drop_falls_back_to_text (fun _ => Throw) (lit "f")
             (lit "folder") [] true [] (lit "node-7")).
    now left.
  - apply (X13_tree_drop_falls_back_to_text (fun _ => Throw) (lit "f")
             (lit "folder") [] true [] []).
    now left.
Defined.

(** ** The variables pane *)

Section PaneValues.

Lemma assoc_app (A : Type) (k : jsstring) (l l' : list (jsstring * A)) :
  assoc k (l ++ l')
  = match assoc k l with Some v => Some v | None => assoc k l' end.
Proof.
  induction l as [|[k' v] l IH]; simpl; [reflexivity|].
  destruct (streqb k' k); [reflexivity | exact IH].
Qed.

Lemma assoc_filter_key (A : Type) (p : jsstring -> bool) (k : jsstring)
      (l : list (jsstring * A)) :
  assoc k (filter (fun entry => p (fst entry)) l)
  = if p k then assoc k l else None.
Proof.
  induction l as [|[k' v] l IH]; cbn [filter fst assoc].
  - now destruct (p k).
  - destruct (p k') eqn:Ep'; cbn [assoc].
    + destruct (streqb k' k) eqn:E; [|exact IH].
      apply streqb_eq in E. subst k'. now rewrite Ep'.
    + rewrite IH. destruct (streqb k' k) eqn:E; [|reflexivity].
      apply streqb_eq in E. subst k'. now rewrite Ep'.
Qed.

Lemma assoc_setOwn (name value k : jsstring) (l : list (jsstring * jsstring)) :
  assoc k (setOwn name value l)
  = if streqb name k then Some value else assoc k l.
Proof.
  induction l as [|[k' v] l IH]; simpl.
  - destruct (streqb name k); reflexivity.
  - destruct (streqb k' name) eqn:E; simpl.
    + apply streqb_eq in E. subst k'. destruct (streqb name k); reflexivity.
    + rewrite IH. destruct (streqb k' k) eqn:E'; [|reflexivity].
      apply streqb_eq in E'. subst k'. now rewrite (streqb_sym name k), E.
Qed.

Lemma includes_cons (x y : jsstring) (l : list jsstring) :
  includes (x :: l) y = streqb x y || includes l y.
Proof. reflexivity. Qed.

Lemma addMissing_fold (currentValues : list (jsstring * jsstring))
      (names : list jsstring) (k : jsstring) :
  forall prev,
    assoc k (fold_left (addMissing currentValues) names prev)
    = match assoc k prev with
      | Some v => Some v
      | None =>
          if includes names k && negb (includes objectPrototypeKeys k)
          then Some (ownOrEmpty k currentValues)
          else None
      end.
Proof.
  induction names as [|n names IH]; intros prev.
  - simpl. now destruct (assoc k prev).
  - cbn [fold_left]. rewrite IH, includes_cons. unfold addMissing, inObject, hasOwn.
    destruct (assoc n prev) as [vn|] eqn:En; cbn [orb negb].
    + destruct (assoc k prev) as [v|] eqn:Ek; [reflexivity|].
      destruct (streqb n k) eqn:E; [|reflexivity].
      apply streqb_eq in E. subst n. congruence.
    + destruct (includes objectPrototypeKeys n) eqn:Ep; cbn [negb].
      * destruct (assoc k prev) as [v|] eqn:Ek; [reflexivity|].
        destruct (streqb n k) eqn:E; [|reflexivity].
        apply streqb_eq in E. subst n. rewrite Ep. cbn [orb negb andb].
        now rewrite andb_false_r.
      * rewrite assoc_app. destruct (assoc k prev) as [v|] eqn:Ek; [reflexivity|].
        simpl assoc. destruct (streqb n k) eqn:E; [|reflexivity].
        apply streqb_eq in E. subst n. now rewrite Ep.
Qed.

Lemma syncVariableValues_lookup
      (names : list jsstring)
      (currentValues prevValues : list (jsstring * jsstring))
      (name : jsstring) :
  assoc name (syncVariableValues names currentValues prevValues)
  = if includes names name
    then match assoc name prevValues with
         | Some v => Some v
         | None =>
             if includes objectPrototypeKeys name then None
             else Some (ownOrEmpty name currentValues)
         end
    else None.
Proof.
  unfold syncVariableValues.
  rewrite (assoc_filter_key _ (includes names) name), addMissing_fold.
  destruct (includes names name); [|reflexivity]. cbn [andb].
  destruct (assoc name prevValues); [reflexivity|].
  now destruct (includes objectPrototypeKeys name).
Qed.

End PaneValues.

(** X14. After the pane's effect the value kept for a name is: nothing
    when the name is no longer a variable of the prompt; the value the
    pane already had, an unsaved edit included; failing that the stored
    value, or the empty string. A name that a plain object inherits
    (["constructor"], ["toString"], ...) passes the [in] test and gets
    no entry unless the pane already had one. *)
Theorem X14_pane_values_after_effect
        (names : list jsstring)
        (currentValues prevValues : list (jsstring * jsstring))
        (name : jsstring) :
  assoc name (syncVariableValues names currentValues prevValues)
  = if includes names name
    then match assoc name prevValues with
         | Some v => Some v
         | None =>
             if includes objectPrototypeKeys name then None
             else Some (ownOrEmpty name currentValues)
         end
    else None.
Proof. apply syncVariableValues_lookup. Qed.

(** X15. An edit made in the pane survives the effect as long as the
    name is still a variable of the prompt, and the effect then treats
    every other name as it would have without the edit. *)
Theorem X15_pane_edit_survives_effect
        (names : list jsstring)
        (currentValues prevValues : list (jsstring * jsstring))
        (variableName value : jsstring) :
  includes names variableName = true ->
  assoc variableName
        (syncVariableValues names currentValues
           (fst (handleVariableChange variableName value prevValues)))
  = Some value
  /\ (forall other, other <> variableName ->
        assoc other
              (syncVariableValues names currentValues
                 (fst (handleVariableChange variableName value prevValues)))
        = assoc other (syncVariableValues names currentValues prevValues)).
Proof.
  intros Hin. cbn [handleVariableChange fst]. split.
  - now rewrite syncVariableValues_lookup, Hin, assoc_setOwn, streqb_refl.
  - intros other Hne. rewrite !syncVariableValues_lookup, assoc_setOwn.
    assert (streqb variableName other = false) as ->
        by (apply streqb_neq; congruence).
    reflexivity.
Qed.

Lemma X15_pane_edit_survives_effect_witness :
  includes [lit "name"; lit "city"] (lit "city") = true
  /\ assoc (lit "city")
           (syncVariableValues [lit "name"; lit "city"]
              [(lit "name", lit "Bo")]
              (fst (handleVariableChange (lit "city") (lit "Oslo")
                                         [(lit "name", lit "Bo"); (lit "old", lit "x")])))
     = Some (lit "Oslo").
Proof.
  split; [reflexivity|].
  apply (X15_pane_edit_survives_effect [lit "name"; lit "city"]
           [(lit "name", lit "Bo")]
           [(lit "name", lit "Bo"); (lit "old", lit "x")]
           (lit "city") (lit "Oslo") eq_refl).
Defined.

(** ** Copying a prompt with nothing in it *)

Section NothingToCopy.



End NothingToCopy.



(** ** The prompts route *)

(** X17. Whatever the request, [POST] answers 400 only without touching
    the table, and answers 201 only for a body with a truthy [name],
    after an insert that succeeded, with the row read back for the new
    id. *)
Theorem X17_post_rejections_leave_table
        (DB : Type) (insertRow : Row -> DB -> option DB)
        (getRow : jsstring -> DB -> option Row)
        (requestJson : option json) (newPromptId currentTimestamp : jsstring)
        (db : DB) :
  (status (fst (POST insertRow getRow requestJson newPromptId currentTimestamp db))
   = 400 ->
   snd (POST insertRow getRow requestJson newPromptId currentTimestamp db) = db)
  /\ (status (fst (POST insertRow getRow requestJson newPromptId
                        currentTimestamp db)) = 201 ->
      exists draft name row stored,
        requestJson = Some draft
        /\ getProp draft (lit "name") = Some name
        /\ truthy name = true
        /\ r_id row = newPromptId
        /\ r_name row = name
        /\ insertRow row db
           = Some (snd (POST insertRow getRow requestJson newPromptId
                             currentTimestamp db))
        /\ getRow newPromptId
                  (snd (POST insertRow getRow requestJson newPromptId
                             currentTimestamp db)) = Some stored
        /\ body (fst (POST insertRow getRow requestJson newPromptId
                           currentTimestamp db)) = rowToJson stored).
Proof.
  unfold POST, postBody, destructure.
  destruct requestJson as [b|]; [|split; [reflexivity | discriminate]].
  destruct b as [| | | | |fields]; cbn [readProp bind getProp truthyV negb];
    try (split; [reflexivity | discriminate]);
    try (split; discriminate).
  destruct (assoc (lit "name") fields) as [name|] eqn:En;
    cbn [truthyV negb]; [|split; [reflexivity | discriminate]].
  destruct (truthy name) eqn:Et; cbn [negb];
    [|split; [reflexivity | discriminate]].
  match goal with
  | |- context [insertRow ?r db] => set (row := r)
  end.
  destruct (insertRow row db) as [db'|] eqn:Ei; [|split; discriminate].
  destruct (getRow newPromptId db') as [stored|] eqn:Eg; [|split; discriminate].
  cbn [fst snd status body]. split; [discriminate|]. intros _.
  exists (JObj fields), name, row, stored. cbn [getProp].
  repeat split; auto.
Qed.

Section ListingFacts.

Variable parse : jsstring -> completion json.

Lemma decodeRows_spec (rows : list RawRow) :
  match decodeRows parse rows with
  | Normal prompts =>
      Forall2 (fun r p => decodeRow parse r = Normal p) rows prompts
  | Throw => Exists (fun r => decodeRow parse r = Throw) rows
  end.
Proof.
  induction rows as [|r rows IH]; [constructor|].
  cbn [decodeRows bind]. destruct (decodeRow parse r) as [p|] eqn:E.
  - destruct (decodeRows parse rows) as [ps|].
    + now constructor.
    + now apply Exists_cons_tl.
  - now apply Exists_cons_hd.
Qed.

End ListingFacts.

(** X18. The listing is all or nothing: [GET] answers 200 with one
    decoded prompt per row, in row order, or, as soon as the stored
    [sections] or [variables] text of one row does not parse, 500 with
    no prompt at all. *)
Theorem X18_listing_all_or_nothing
        (parse : jsstring -> completion json) (rows : list RawRow) :
  (exists prompts,
      GET parse (Some rows) = {| status := 200; body := JArr prompts |}
      /\ length prompts = length rows
      /\ Forall2 (fun r p => decodeRow parse r = Normal p) rows prompts)
  \/ (GET parse (Some rows)
      = {| status := 500;
           body := JObj [ (lit "error", JStr (lit "Failed to fetch prompts")) ] |}
      /\ Exists (fun r => decodeRow parse r = Throw) rows).
Proof.
  pose proof (decodeRows_spec parse rows) as H. unfold GET.
  destruct (decodeRows parse rows) as [prompts|].
  - left. exists prompts. split; [reflexivity|]. split; [|exact H].
    symmetry. eapply Forall2_length; eauto.
  - right. split; [reflexivity | exact H].
Qed.

(** ** The highlight layer *)

Section HighlightFacts.

Lemma matchHere_prefix (a b name : jsstring) :
  matchHere a = Some name -> matchHere (a ++ b) = Some name.
Proof.
  intros E. destruct (matchHere_sound _ _ E) as [rest H].
  destruct H as [name rest Hne Hrun].
  apply (matchHere_complete _ name (rest ++ b)).
  replace ((lbrace :: lbrace :: name ++ rbrace :: rbrace :: rest) ++ b)
    with (lbrace :: lbrace :: name ++ rbrace :: rbrace :: rest ++ b)
    by (simpl; now rewrite <- app_assoc).
  now constructor.
Qed.

(** A piece in which no match starts, seen inside the text, has no
    match of its own. *)
Lemma quiet_piece (p rest : jsstring) :
  (forall k, k < length p -> matchHere (skipn k (p ++ rest)) = None) ->
  forall k, matchHere (skipn k p) = None.
Proof.
  intros H k. destruct (Nat.lt_ge_cases k (length p)) as [Hlt|Hge].
  - specialize (H k Hlt). rewrite skipn_app in H.
    replace (k - length p) with 0 in H by lia. simpl skipn in H.
    destruct (matchHere (skipn k p)) as [name|] eqn:E; [|reflexivity].
    apply (matchHere_prefix _ rest) in E. congruence.
  - now rewrite skipn_all2.
Qed.

Lemma searchEnd_quiet (x : jsstring) :
  (forall k, matchHere (skipn k x) = None) ->
  forall pos, searchEnd pos x = None.
Proof.
  induction x as [|c x IH]; intros H pos; [reflexivity|].
  pose proof (H 0) as H0. cbn [skipn] in H0.
  cbn [searchEnd]. rewrite H0. apply IH. intros k. exact (H (S k)).
Qed.

Lemma regexTest_quiet (p : jsstring) (lastIndex : nat) :
  (forall k, matchHere (skipn k p) = None) ->
  regexTest lastIndex p = (false, 0).
Proof.
  intros H. unfold regexTest. destruct (length p <? lastIndex); [reflexivity|].
  rewrite searchEnd_quiet; [reflexivity|].
  intros k. rewrite skipn_skipn. apply H.
Qed.

Lemma regexTest_placeholder (name : jsstring) :
  name <> [] -> Forall (fun c => c <> rbrace) name ->
  regexTest 0 (placeholder name) = (true, length name + 4).
Proof.
  intros Hne Hrun. unfold regexTest. cbn [Nat.ltb Nat.leb skipn].
  assert (matchHere (placeholder name) = Some name) as E.
  { apply (matchHere_complete _ name []). rewrite placeholder_unfold.
    now constructor. }
  rewrite placeholder_unfold in *. cbn [searchEnd]. now rewrite E.
Qed.

Lemma matchAll_quiet (p : jsstring) :
  (forall k, matchHere (skipn k p) = None) -> matchAll p = [].
Proof.
  induction p as [|c p IH]; intros H; [reflexivity|].
  rewrite (matchAll_skip c p (H 0)). apply IH. intros k. exact (H (S k)).
Qed.

Lemma splitPartsFrom_skip (x rest piece : jsstring) :
  splitPartsFrom (length x) piece (x ++ rest) = splitPartsFrom 0 piece rest.
Proof.
  induction x as [|c x IH]; simpl; [|exact IH].
  destruct rest; reflexivity.
Qed.

Lemma splitPartsFrom_here (c : codeunit) (s piece : jsstring) :
  splitPartsFrom 0 piece (c :: s)
  = match matchHere (c :: s) with
    | Some name =>
        rev piece :: placeholder name :: splitPartsFrom (length name + 3) [] s
    | None => splitPartsFrom 0 (c :: piece) s
    end.
Proof. reflexivity. Qed.

(** The parts of a split: a first piece, then each match followed by the
    piece after it; no match starts inside a piece. *)
Lemma splitParts_shape (s : jsstring) :
  forall piece,
  exists p following,
    splitPartsFrom 0 piece s = interleave (rev piece ++ p) following
    /\ s = p ++ concat (map (fun mp => fst mp ++ snd mp) following)
    /\ (forall k, k < length p -> matchHere (skipn k s) = None)
    /\ Forall (fun mp =>
                 (exists name, fst mp = placeholder name /\ name <> []
                               /\ Forall (fun c => c <> rbrace) name)
                 /\ forall k, matchHere (skipn k (snd mp)) = None)
              following
    /\ map fst following = map placeholder (matchAll s).
Proof.
  remember (length s) as n eqn:Hn. revert s Hn.
  induction n as [n IH] using lt_wf_ind. intros s Hn piece.
  destruct s as [|c s].
  - exists [], []. simpl. rewrite app_nil_r. repeat split; auto.
    intros k Hk. lia.
  - rewrite splitPartsFrom_here.
    destruct (matchHere (c :: s)) as [name|] eqn:E.
    + destruct (matchHere_sound _ _ E) as [rest Hp].
      pose proof (matchAll_take _ _ _ Hp) as Eall.
      pose proof (PatternAt_shorter _ _ _ Hp) as Hshort.
      inversion Hp as [name' rest' Hne Hrun Hs]. subst c s name' rest'.
      assert (splitPartsFrom (length name + 3) []
                             (lbrace :: name ++ rbrace :: rbrace :: rest)
              = splitPartsFrom 0 [] rest) as ->.
      { replace (lbrace :: name ++ rbrace :: rbrace :: rest)
          with ((lbrace :: name ++ [rbrace; rbrace]) ++ rest)
          by (simpl; now rewrite <- app_assoc).
        replace (length name + 3) with (length (lbrace :: name ++ [rbrace; rbrace]))
          by (simpl; rewrite length_app; simpl; lia).
        apply splitPartsFrom_skip. }
      destruct (IH (length rest)) with (s := rest) (piece := @nil codeunit)
        as (p' & fol' & Hsplit & Htext & Hquiet & Hfol & Hmatches);
        [subst n; exact Hshort | reflexivity |].
      exists [], ((placeholder name, p') :: fol').
      rewrite Hsplit. cbn [rev app interleave map concat fst snd length].
      rewrite app_nil_r. split; [reflexivity|]. split.
      { rewrite placeholder_unfold. simpl. rewrite <- !app_assoc. simpl.
        now rewrite <- Htext. }
      split; [intros k Hk; lia|]. split.
      { constructor; [|exact Hfol]. cbn [fst snd]. split; [now exists name|].
        apply (quiet_piece p' (concat (map (fun mp => fst mp ++ snd mp) fol'))).
        now rewrite <- Htext. }
      rewrite Eall. cbn [map]. now f_equal.
    + destruct (IH (length s)) with (s := s) (piece := c :: piece)
        as (p' & fol' & Hsplit & Htext & Hquiet & Hfol & Hmatches);
        [subst n; simpl; lia | reflexivity |].
      exists (c :: p'), fol'. rewrite Hsplit. split.
      { simpl. now rewrite <- app_assoc. }
      split; [simpl; now rewrite <- Htext|].
      split.
      { intros [|k] Hk; [exact E|]. simpl skipn. apply Hquiet. simpl in Hk. lia. }
      split; [exact Hfol|]. now rewrite (matchAll_skip c s E).
Qed.

Lemma highlightParts_interleave (following : list (jsstring * jsstring)) :
  Forall (fun mp =>
            (exists name, fst mp = placeholder name /\ name <> []
                          /\ Forall (fun c => c <> rbrace) name)
            /\ forall k, matchHere (skipn k (snd mp)) = None)
         following ->
  forall (p : jsstring) (lastIndex : nat),
    (forall k, matchHere (skipn k p) = None) ->
    highlightParts lastIndex (interleave p following)
    = (false, p) :: flat_map (fun mp => [(true, fst mp); (false, snd mp)]) following.
Proof.
  induction 1 as [|[m q] fol [(name & Hm & Hne & Hrun) Hq] _ IH];
    intros p lastIndex Hp.
  - simpl. now rewrite (regexTest_quiet p lastIndex Hp).
  - cbn [interleave highlightParts fst snd flat_map app] in *.
    rewrite (regexTest_quiet p lastIndex Hp). f_equal.
    subst m. rewrite (regexTest_placeholder name Hne Hrun). f_equal.
    now apply IH.
Qed.

End HighlightFacts.

(** X19. [highlightVariables] renders the text in parts that put
    together give the text back; the highlighted parts are, in order,
    the matches of the placeholder pattern, and no plain part holds a
    match. The one global regex object tested on every part keeps its
    [lastIndex] between the tests without making a test go wrong. *)
Theorem X19_highlight_marks_the_matches (text : jsstring) :
  concat (map snd (highlightVariables text)) = text
  /\ map snd (filter (fun part => fst part) (highlightVariables text))
     = map placeholder (matchAll text)
  /\ Forall (fun part => fst part = false -> matchAll (snd part) = [])
            (highlightVariables text).
Proof.
  destruct text as [|c s]; [repeat split; constructor|].
  unfold highlightVariables, splitParts. cbn [truthyStr negb].
  destruct (splitParts_shape (c :: s) [])
    as (p & fol & Hsplit & Htext & Hquiet & Hfol & Hmatches).
  assert (forall k, matchHere (skipn k p) = None) as Hp.
  { apply (quiet_piece p (concat (map (fun mp => fst mp ++ snd mp) fol))).
    now rewrite <- Htext. }
  rewrite Hsplit. cbn [rev app].
  rewrite (highlightParts_interleave fol Hfol p 0 Hp).
  split; [|split].
  - rewrite Htext. cbn [map snd concat]. f_equal.
    clear. induction fol as [|[m q] fol IH]; [reflexivity|].
    cbn [flat_map app map snd concat fst]. now rewrite IH, <- app_assoc.
  - rewrite <- Hmatches. cbn [filter fst].
    clear. induction fol as [|[m q] fol IH]; [reflexivity|].
    cbn [flat_map app filter fst snd map]. now rewrite IH.
  - constructor; [intros _; now apply matchAll_quiet|].
    clear - Hfol. induction Hfol as [|[m q] fol [_ Hq] _ IH]; [constructor|].
    cbn [flat_map app]. constructor; [discriminate|].
    constructor; [intros _; now apply matchAll_quiet | exact IH].
Qed.

(** ** The generated markup *)

Section Markup.





Lemma renderHtml_app (a b : list HtmlToken) :
  renderHtml (a ++ b) = renderHtml a ++ renderHtml b.
Proof. unfold renderHtml. now rewrite map_app, concat_app. Qed.





End Markup.

